(** * Workflow event log of the construction-industry agents

    A shallow embedding of [workflow_events.py] (event model, SQLite-backed
    event storage, per-workflow event generator, process-wide event manager)
    and of the broadcast part of [backup_old_structure/sse_server.py].

    Conventions of the embedding.
    - Python [str] values are [string]s; every character is a code point
      below 256.
    - Python numbers are integers ([Z]).  The wall clock [time.time()] is
      read in integer microseconds, so a duration is an exact difference
      and IEEE rounding is outside the model.
    - A Python [dict] is an association list in insertion order.
    - Code that can raise runs in a state-and-exception monad; [try/except]
      is the combinator [try_except].
    - The answers of the environment (clock, [uuid4], outcome of the
      database I/O) come from an oracle indexed by a read counter. *)

From Stdlib Require Import List String Ascii ZArith NArith Bool Lia Arith.
From Stdlib Require Import Sorting.Sorted Permutation.
Import ListNotations.

Local Open Scope string_scope.
Local Open Scope list_scope.

(* ================================================================== *)
(** * Python dictionaries *)

Module PyDict.
Section Dict.
Context {V : Type}.

Definition dict := list (string * V).

(** [d.get(k)] *)
Fixpoint get (d : dict) (k : string) : option V :=
  match d with
  | [] => None
  | (k', v) :: d' => if String.eqb k k' then Some v else get d' k
  end.

(** [k in d] *)
Definition mem (d : dict) (k : string) : bool :=
  match get d k with Some _ => true | None => false end.

(** [d[k] = v]: an existing key keeps its position, a new key goes last. *)
Fixpoint set (d : dict) (k : string) (v : V) : dict :=
  match d with
  | [] => [(k, v)]
  | (k', v') :: d' =>
      if String.eqb k k' then (k', v) :: d' else (k', v') :: set d' k v
  end.

(** [del d[k]] for a key that is present: the entry of [k] goes, the
    others keep their order. *)
Definition del (d : dict) (k : string) : dict :=
  filter (fun kv => negb (String.eqb k (fst kv))) d.

(** [list(d.keys())] *)
Definition keys (d : dict) : list string := map fst d.

(** [dict(pairs)] *)
Definition of_pairs (pairs : list (string * V)) : dict :=
  fold_left (fun d kv => set d (fst kv) (snd kv)) pairs [].
End Dict.
Arguments dict : clear implicits.
End PyDict.

(* ================================================================== *)
(** * JSON values, [json.dumps] and [json.loads] *)

Module Json.

(** The JSON-serialisable Python values: [None], booleans, integers,
    strings, lists, and dicts with string keys. *)
#[local] Unset Elimination Schemes.
Inductive json : Type :=
| JNull
| JBool (b : bool)
| JInt (n : Z)
| JStr (s : string)
| JList (l : list json)
| JDict (m : list (string * json)).
#[local] Set Elimination Schemes.

(** The double quote character, code 34. *)
Abbreviation dquote :=
  (Ascii false true false false false true false false) (only parsing).

(** ** Decimal digits *)

Definition digit_char (d : N) : ascii := ascii_of_N (48 + d).

Definition is_digit (c : ascii) : bool :=
  ((48 <=? N_of_ascii c) && (N_of_ascii c <=? 57))%N.

Definition digit_val (c : ascii) : N := N_of_ascii c - 48.

(** Decimal digits of [n], most significant first.  [fuel] bounds the
    number of digits. *)
Fixpoint N_digits (fuel : nat) (n : N) (acc : string) : string :=
  match fuel with
  | O => acc
  | S f =>
      let acc' := String (digit_char (n mod 10)) acc in
      if (n <? 10)%N then acc' else N_digits f (n / 10) acc'
  end.

(** [str(n)] for a natural number. *)
Definition str_of_N (n : N) : string := N_digits (S (N.size_nat n)) n "".

(** [str(n)] for an integer. *)
Definition str_of_Z (n : Z) : string :=
  match n with
  | Z0 => "0"
  | Zpos p => str_of_N (Npos p)
  | Zneg p => String "-" (str_of_N (Npos p))
  end.

(** ** Strings: [encode_basestring_ascii] *)

Definition hex_char (d : N) : ascii :=
  if (d <? 10)%N then ascii_of_N (48 + d) else ascii_of_N (87 + d).

(** [\uXXXX] with four lower-case hexadecimal digits. *)
Definition u_escape (n : N) : string :=
  String "\" (String "u"
    (String (hex_char (n / 4096 mod 16)) (String (hex_char (n / 256 mod 16))
    (String (hex_char (n / 16 mod 16)) (String (hex_char (n mod 16)) ""))))).

(** The replacement of one character: backslash and quote get a
    backslash, the five named control characters their letter, every other
    character outside [' '..'~'] its [\u] escape. *)
Definition escape_char (c : ascii) : string :=
  let n := N_of_ascii c in
  if (n =? 34)%N then (String "\" (String dquote ""))
  else if (n =? 92)%N then "\\"
  else if (n =? 10)%N then "\n"
  else if (n =? 13)%N then "\r"
  else if (n =? 9)%N then "\t"
  else if (n =? 12)%N then "\f"
  else if (n =? 8)%N then "\b"
  else if ((32 <=? n) && (n <=? 126))%N then String c ""
  else u_escape n.

(** ** [json.dumps] with the default separators [", "] and [": "]

    [dumps_app v k] is the text of [v] followed by [k]. *)

Fixpoint escape_app (s k : string) : string :=
  match s with
  | EmptyString => k
  | String c s' => escape_char c ++ escape_app s' k
  end.

Definition encode_string_app (s k : string) : string :=
  String dquote (escape_app s (String dquote k)).

Fixpoint dumps_app (v : json) (k : string) : string :=
  match v with
  | JNull => "null" ++ k
  | JBool true => "true" ++ k
  | JBool false => "false" ++ k
  | JInt n => str_of_Z n ++ k
  | JStr s => encode_string_app s k
  | JList l =>
      let fix items (l : list json) (k : string) : string :=
        match l with
        | [] => k
        | x :: l' =>
            dumps_app x
              match l' with [] => k | _ :: _ => ", " ++ items l' k end
        end in
      String "[" (items l (String "]" k))
  | JDict m =>
      let fix items (m : list (string * json)) (k : string) : string :=
        match m with
        | [] => k
        | (key, x) :: m' =>
            encode_string_app key (": " ++
              dumps_app x
                match m' with [] => k | _ :: _ => ", " ++ items m' k end)
        end in
      String "{" (items m (String "}" k))
  end.

Definition dumps (v : json) : string := dumps_app v "".

(** ** [json.loads]

    A recursive-descent reading of the decoder: [scan_once] dispatches on
    the next character, [JSONArray] and [JSONObject] read the containers,
    [scanstring] a string body.  [None] stands for [JSONDecodeError], and
    also for a text that denotes a float, which the embedding does not
    represent. *)

Definition is_ws (c : ascii) : bool :=
  let n := N_of_ascii c in
  ((n =? 32) || (n =? 9) || (n =? 10) || (n =? 13))%N.

Fixpoint skip_ws (s : string) : string :=
  match s with
  | EmptyString => ""
  | String c r => if is_ws c then skip_ws r else s
  end.

Fixpoint strip_prefix (p s : string) : option string :=
  match p with
  | EmptyString => Some s
  | String c p' =>
      match s with
      | EmptyString => None
      | String c' s' => if Ascii.eqb c c' then strip_prefix p' s' else None
      end
  end.

(** The longest run of decimal digits, accumulated into a number. *)
Fixpoint scan_digits (s : string) (acc : N) : N * string :=
  match s with
  | EmptyString => (acc, "")
  | String c r =>
      if is_digit c then scan_digits r (acc * 10 + digit_val c) else (acc, s)
  end.

Definition starts_with_digit (s : string) : bool :=
  match s with
  | EmptyString => false
  | String c _ => is_digit c
  end.

(** Does a fraction [\.\d+] or an exponent [[eE][-+]?\d+] follow? *)
Definition float_tail (s : string) : bool :=
  match s with
  | String c r =>
      if Ascii.eqb c "." then starts_with_digit r
      else if Ascii.eqb c "e" || Ascii.eqb c "E" then
        match r with
        | String c' r' =>
            if Ascii.eqb c' "-" || Ascii.eqb c' "+" then starts_with_digit r'
            else is_digit c'
        | EmptyString => false
        end
      else false
  | EmptyString => false
  end.

(** The integer part [0|[1-9]\d*] of a number. *)
Definition scan_natural (s : string) : option (N * string) :=
  match s with
  | String c r =>
      if Ascii.eqb c "0" then Some (0%N, r)
      else if is_digit c then Some (scan_digits s 0)
      else None
  | EmptyString => None
  end.

(** [NUMBER_RE]: an integer literal; a float literal gives [None]. *)
Definition scan_number (s : string) : option (Z * string) :=
  let '(neg, s') :=
    match s with
    | String c r => if Ascii.eqb c "-" then (true, r) else (false, s)
    | EmptyString => (false, s)
    end in
  match scan_natural s' with
  | Some (n, r) =>
      if float_tail r then None
      else Some (if neg then (- Z.of_N n)%Z else Z.of_N n, r)
  | None => None
  end.

Definition hex_val (c : ascii) : option N :=
  let n := N_of_ascii c in
  if ((48 <=? n) && (n <=? 57))%N then Some (n - 48)%N
  else if ((97 <=? n) && (n <=? 102))%N then Some (n - 87)%N
  else if ((65 <=? n) && (n <=? 70))%N then Some (n - 55)%N
  else None.

Definition hex4 (a b c d : ascii) : option N :=
  match hex_val a, hex_val b, hex_val c, hex_val d with
  | Some x, Some y, Some z, Some w => Some (((x * 16 + y) * 16 + z) * 16 + w)%N
  | _, _, _, _ => None
  end.

(** The [BACKSLASH] table of the decoder. *)
Definition unescape (c : ascii) : option ascii :=
  let n := N_of_ascii c in
  if (n =? 34)%N then Some dquote
  else if (n =? 92)%N then Some "\"%char
  else if (n =? 47)%N then Some "/"%char
  else if (n =? 98)%N then Some (ascii_of_N 8)
  else if (n =? 102)%N then Some (ascii_of_N 12)
  else if (n =? 110)%N then Some (ascii_of_N 10)
  else if (n =? 114)%N then Some (ascii_of_N 13)
  else if (n =? 116)%N then Some (ascii_of_N 9)
  else None.

Definition cons_char (c : ascii) (r : option (string * string))
  : option (string * string) :=
  match r with
  | Some (s, rest) => Some (String c s, rest)
  | None => None
  end.

(** [scanstring], strict: the body of a string up to its closing quote.
    A [\u] escape above 255 is outside the embedding. *)
Fixpoint scanstring (s : string) : option (string * string) :=
  match s with
  | EmptyString => None
  | String c r =>
      if Ascii.eqb c dquote then Some ("", r)
      else if Ascii.eqb c "\" then
        match r with
        | String e r1 =>
            if Ascii.eqb e "u" then
              match r1 with
              | String h1 (String h2 (String h3 (String h4 r2))) =>
                  match hex4 h1 h2 h3 h4 with
                  | Some n =>
                      if (n <? 256)%N
                      then cons_char (ascii_of_N n) (scanstring r2)
                      else None
                  | None => None
                  end
              | _ => None
              end
            else
              match unescape e with
              | Some ch => cons_char ch (scanstring r1)
              | None => None
              end
        | EmptyString => None
        end
      else if (N_of_ascii c <? 32)%N then None
      else cons_char c (scanstring r)
  end.

Fixpoint scan_once (fuel : nat) (s : string) {struct fuel}
  : option (json * string) :=
  match fuel with
  | O => None
  | S f =>
      match s with
      | EmptyString => None
      | String c r =>
          if Ascii.eqb c dquote then
            match scanstring r with
            | Some (str, r') => Some (JStr str, r')
            | None => None
            end
          else if Ascii.eqb c "{" then JSONObject f r
          else if Ascii.eqb c "[" then JSONArray f r
          else if Ascii.eqb c "n" then
            match strip_prefix "ull" r with
            | Some r' => Some (JNull, r')
            | None => None
            end
          else if Ascii.eqb c "t" then
            match strip_prefix "rue" r with
            | Some r' => Some (JBool true, r')
            | None => None
            end
          else if Ascii.eqb c "f" then
            match strip_prefix "alse" r with
            | Some r' => Some (JBool false, r')
            | None => None
            end
          else
            match scan_number s with
            | Some (n, r') => Some (JInt n, r')
            | None => None
            end
      end
  end

with JSONArray (fuel : nat) (s : string) {struct fuel}
  : option (json * string) :=
  match fuel with
  | O => None
  | S f =>
      match skip_ws s with
      | EmptyString => None
      | String c r as s1 =>
          if Ascii.eqb c "]" then Some (JList [], r) else array_loop f s1 []
      end
  end

with array_loop (fuel : nat) (s : string) (values : list json) {struct fuel}
  : option (json * string) :=
  match fuel with
  | O => None
  | S f =>
      match scan_once f s with
      | None => None
      | Some (v, r) =>
          match skip_ws r with
          | EmptyString => None
          | String c r1 =>
              if Ascii.eqb c "]" then Some (JList (values ++ [v]), r1)
              else if Ascii.eqb c ","
              then array_loop f (skip_ws r1) (values ++ [v])
              else None
          end
      end
  end

with JSONObject (fuel : nat) (s : string) {struct fuel}
  : option (json * string) :=
  match fuel with
  | O => None
  | S f =>
      match skip_ws s with
      | EmptyString => None
      | String c r =>
          if Ascii.eqb c "}" then Some (JDict [], r)
          else if Ascii.eqb c dquote then object_loop f r []
          else None
      end
  end

with object_loop (fuel : nat) (s : string) (pairs : list (string * json))
  {struct fuel} : option (json * string) :=
  match fuel with
  | O => None
  | S f =>
      match scanstring s with
      | None => None
      | Some (key, r) =>
          match skip_ws r with
          | EmptyString => None
          | String c r1 =>
              if Ascii.eqb c ":" then
                match scan_once f (skip_ws r1) with
                | None => None
                | Some (v, r2) =>
                    match skip_ws r2 with
                    | EmptyString => None
                    | String c2 r3 =>
                        if Ascii.eqb c2 "}" then
                          Some (JDict (PyDict.of_pairs (pairs ++ [(key, v)])),
                                r3)
                        else if Ascii.eqb c2 "," then
                          match skip_ws r3 with
                          | EmptyString => None
                          | String c3 r4 =>
                              if Ascii.eqb c3 dquote
                              then object_loop f r4 (pairs ++ [(key, v)])
                              else None
                          end
                        else None
                    end
                end
              else None
          end
      end
  end.

(** [json.loads(s)]: one value, surrounded by optional white space. *)
Definition loads (s : string) : option json :=
  match scan_once (2 * String.length s) (skip_ws s) with
  | Some (v, r) =>
      match skip_ws r with
      | EmptyString => Some v
      | String _ _ => None
      end
  | None => None
  end.

End Json.

(* ================================================================== *)
(** * Naive [datetime] values, [isoformat] and [fromisoformat] *)

Module DateTime.
Import Json.
Local Open Scope N_scope.

(** A [datetime] without time zone, as [datetime.now()] returns it. *)
Record datetime : Type := mkDatetime {
  year : N; month : N; day : N;
  hour : N; minute : N; second : N; microsecond : N
}.

Definition is_leap (y : N) : bool :=
  ((y mod 4 =? 0) && (negb (y mod 100 =? 0) || (y mod 400 =? 0))).

Definition days_in_month (y m : N) : N :=
  if m =? 2 then (if is_leap y then 29 else 28)
  else if (m =? 4) || (m =? 6) || (m =? 9) || (m =? 11) then 30
  else 31.

(** The ranges the [datetime] constructor enforces. *)
Definition valid (d : datetime) : bool :=
  (1 <=? year d) && (year d <=? 9999) &&
  (1 <=? month d) && (month d <=? 12) &&
  (1 <=? day d) && (day d <=? days_in_month (year d) (month d)) &&
  (hour d <=? 23) && (minute d <=? 59) && (second d <=? 59) &&
  (microsecond d <=? 999999).

(** Comparison of naive datetimes: the fields in order. *)
Definition lex (c1 c2 : comparison) : comparison :=
  match c1 with Eq => c2 | _ => c1 end.

Definition compare (a b : datetime) : comparison :=
  lex (year a ?= year b)
 (lex (month a ?= month b)
 (lex (day a ?= day b)
 (lex (hour a ?= hour b)
 (lex (minute a ?= minute b)
 (lex (second a ?= second b)
      (microsecond a ?= microsecond b)))))).

(** [a <= b] *)
Definition leb (a b : datetime) : bool :=
  match compare a b with Gt => false | _ => true end.

(** [%0wd] for a number below [10^w]: its [w] decimal digits. *)
Fixpoint pad (w : nat) (n : N) : string :=
  match w with
  | O => ""%string
  | S w' => String (digit_char ((n / 10 ^ N.of_nat w') mod 10)) (pad w' n)
  end.

(** [d.isoformat()]: the fraction is written only when it is not zero. *)
Definition isoformat (d : datetime) : string :=
  (pad 4 (year d) ++ "-" ++ pad 2 (month d) ++ "-" ++ pad 2 (day d) ++ "T" ++
   pad 2 (hour d) ++ ":" ++ pad 2 (minute d) ++ ":" ++ pad 2 (second d) ++
   (if (microsecond d =? 0)%N then "" else "." ++ pad 6 (microsecond d)))%string.

(** Exactly [w] decimal digits. *)
Fixpoint take_digits (w : nat) (s : string) (acc : N) : option (N * string) :=
  match w with
  | O => Some (acc, s)
  | S w' =>
      match s with
      | EmptyString => None
      | String c r =>
          if is_digit c then take_digits w' r (acc * 10 + digit_val c)
          else None
      end
  end.

Definition expect (c : ascii) (s : string) : option string :=
  match s with
  | EmptyString => None
  | String c' r => if Ascii.eqb c c' then Some r else None
  end.

Definition any_char (s : string) : option string :=
  match s with
  | EmptyString => None
  | String _ r => Some r
  end.

Definition obind {A B} (x : option A) (f : A -> option B) : option B :=
  match x with Some a => f a | None => None end.

Notation "' p <- x ;; k" := (obind x (fun p => k))
  (at level 61, p pattern, x at next level, right associativity).

(** [datetime.fromisoformat(s)] on the two shapes [isoformat] writes for a
    naive datetime, [YYYY-MM-DD?HH:MM:SS] and the same followed by
    [.ffffff]; the separator is any one character.  [None] is
    [ValueError]; the other ISO 8601 shapes are not written by the store
    and count as [None] here. *)
Definition fromisoformat (s : string) : option datetime :=
  ' (y, s) <- take_digits 4 s 0 ;;
  ' s <- expect "-" s ;;
  ' (m, s) <- take_digits 2 s 0 ;;
  ' s <- expect "-" s ;;
  ' (d, s) <- take_digits 2 s 0 ;;
  ' s <- any_char s ;;
  ' (h, s) <- take_digits 2 s 0 ;;
  ' s <- expect ":" s ;;
  ' (mi, s) <- take_digits 2 s 0 ;;
  ' s <- expect ":" s ;;
  ' (sec, s) <- take_digits 2 s 0 ;;
  ' (us, s) <-
      match s with
      | EmptyString => Some (0, ""%string)
      | String c r =>
          if Ascii.eqb c "." then take_digits 6 r 0 else None
      end ;;
  match s with
  | EmptyString =>
      let dt := mkDatetime y m d h mi sec us in
      if valid dt then Some dt else None
  | String _ _ => None
  end.

End DateTime.

(* ================================================================== *)
(** * The event model *)

Module Events.
Import Json DateTime.

Inductive EventType : Type :=
| WORKFLOW_STARTED | WORKFLOW_COMPLETED | WORKFLOW_ERROR
| AGENT_STARTED | AGENT_COMPLETED | AGENT_ERROR
| PERFORMANCE_METRIC | PROGRESS_UPDATE | STATUS_UPDATE.

(** [EventType.X.value] *)
Definition EventType_value (t : EventType) : string :=
  match t with
  | WORKFLOW_STARTED => "workflow_started"
  | WORKFLOW_COMPLETED => "workflow_completed"
  | WORKFLOW_ERROR => "workflow_error"
  | AGENT_STARTED => "agent_started"
  | AGENT_COMPLETED => "agent_completed"
  | AGENT_ERROR => "agent_error"
  | PERFORMANCE_METRIC => "performance_metric"
  | PROGRESS_UPDATE => "progress_update"
  | STATUS_UPDATE => "status_update"
  end.

Inductive EventStatus : Type := SUCCESS | ERROR | WARNING | INFO | PROGRESS.

(** [EventStatus.X.value] *)
Definition EventStatus_value (s : EventStatus) : string :=
  match s with
  | SUCCESS => "success"
  | ERROR => "error"
  | WARNING => "warning"
  | INFO => "info"
  | PROGRESS => "progress"
  end.

(** The dataclass [WorkflowEvent].  [data] is whatever JSON value the
    caller or [json.loads] supplies; [duration] is in microseconds. *)
Record WorkflowEvent : Type := mkEvent {
  event_id : string;
  workflow_id : string;
  timestamp : datetime;
  event_type : string;
  agent_name : string;
  status : string;
  message : string;
  data : json;
  duration : option Z;
  error : option string;
  metadata : option json
}.

(** Python truth value of a JSON value. *)
Definition truthy (v : json) : bool :=
  match v with
  | JNull => false
  | JBool b => b
  | JInt n => negb (n =? 0)%Z
  | JStr s => negb (String.eqb s "")
  | JList l => match l with [] => false | _ :: _ => true end
  | JDict m => match m with [] => false | _ :: _ => true end
  end.

End Events.

(* ================================================================== *)
(** * Exceptions *)

Inductive exn : Type :=
| OperationalError      (* sqlite3: the database cannot be opened or used *)
| IntegrityError        (* sqlite3: PRIMARY KEY constraint *)
| OverflowError         (* a Python int that does not fit SQLite's INTEGER *)
| ValueError            (* fromisoformat *)
| JSONDecodeError       (* json.loads *)
| HandlerException (name : string).  (* raised by a registered handler *)

Inductive result (A : Type) : Type :=
| Ok (a : A)
| Raise (e : exn).
Arguments Ok {A} a.
Arguments Raise {A} e.

(* ================================================================== *)
(** * [EventStorage]: the table [workflow_events] *)

Module Storage.
Import Json DateTime Events.

(** One row; the [TEXT] columns hold strings, the nullable ones options. *)
Record Row : Type := mkRow {
  r_event_id : string;
  r_workflow_id : string;
  r_timestamp : string;
  r_event_type : string;
  r_agent_name : string;
  r_status : string;
  r_message : string;
  r_data : string;
  r_duration : option Z;
  r_error : option string;
  r_metadata : option string
}.

(** The table, in insertion (rowid) order. *)
Definition table := list Row.

(** The parameter tuple of the [INSERT]. *)
Definition row_of_event (event : WorkflowEvent) : Row :=
  {| r_event_id := event_id event;
     r_workflow_id := workflow_id event;
     r_timestamp := isoformat (timestamp event);
     r_event_type := event_type event;
     r_agent_name := agent_name event;
     r_status := status event;
     r_message := message event;
     r_data := dumps (data event);
     r_duration := duration event;
     r_error := error event;
     r_metadata :=
       match metadata event with
       | Some m => if truthy m then Some (dumps m) else None
       | None => None
       end |}.

Definition has_event_id (tbl : table) (id : string) : bool :=
  existsb (fun r => String.eqb (r_event_id r) id) tbl.

(** [store_event]: [io] tells whether the database can be opened and
    written.  A second row with the same [event_id] violates the primary
    key.  Every failure is logged and raised again. *)
Definition store_event (io : bool) (tbl : table) (event : WorkflowEvent)
  : result table :=
  if negb io then Raise OperationalError
  else if has_event_id tbl (event_id event) then Raise IntegrityError
  else Ok (tbl ++ [row_of_event event]).

(** [ORDER BY timestamp DESC]: the [TEXT] column is compared byte by byte.
    SQL leaves the order of rows with equal text open; here they keep their
    table order. *)
Fixpoint insert_desc (r : Row) (l : list Row) : list Row :=
  match l with
  | [] => [r]
  | x :: l' =>
      if String.leb (r_timestamp x) (r_timestamp r)
      then r :: l
      else x :: insert_desc r l'
  end.

Definition order_by_timestamp_desc (l : list Row) : list Row :=
  fold_right insert_desc [] l.

(** [LIMIT ?]: a negative limit means no limit. *)
Definition sql_limit (limit : Z) (l : list Row) : list Row :=
  if (limit <? 0)%Z then l else firstn (Z.to_nat limit) l.

(** A Python int is bound as a 64-bit SQLite [INTEGER]. *)
Definition fits_int64 (n : Z) : bool :=
  ((- 2 ^ 63 <=? n) && (n <? 2 ^ 63))%Z.

(** The [WorkflowEvent(...)] built from one fetched row. *)
Definition event_of_row (r : Row) : result WorkflowEvent :=
  match fromisoformat (r_timestamp r) with
  | None => Raise ValueError
  | Some ts =>
      match loads (r_data r) with
      | None => Raise JSONDecodeError
      | Some d =>
          let build md :=
            Ok {| event_id := r_event_id r;
                  workflow_id := r_workflow_id r;
                  timestamp := ts;
                  event_type := r_event_type r;
                  agent_name := r_agent_name r;
                  status := r_status r;
                  message := r_message r;
                  data := d;
                  duration := r_duration r;
                  error := r_error r;
                  metadata := md |} in
          match r_metadata r with
          | None => build None
          | Some txt =>
              if String.eqb txt "" then build None
              else match loads txt with
                   | None => Raise JSONDecodeError
                   | Some m => build (Some m)
                   end
          end
      end
  end.

(** The loop over [cursor.fetchall()]: the first row that fails to decode
    raises. *)
Fixpoint events_of_rows (rows : list Row) : result (list WorkflowEvent) :=
  match rows with
  | [] => Ok []
  | r :: rows' =>
      match event_of_row r with
      | Raise e => Raise e
      | Ok ev =>
          match events_of_rows rows' with
          | Raise e => Raise e
          | Ok evs => Ok (ev :: evs)
          end
      end
  end.

(** The body of the [try] of [get_events_by_workflow]. *)
Definition select_by_workflow (io : bool) (tbl : table)
    (workflow_id : string) (limit : Z) : result (list WorkflowEvent) :=
  if negb io then Raise OperationalError
  else if negb (fits_int64 limit) then Raise OverflowError
  else
    events_of_rows
      (sql_limit limit
         (order_by_timestamp_desc
            (filter (fun r => String.eqb (r_workflow_id r) workflow_id) tbl))).

(** [get_events_by_workflow]: any exception is logged and turned into
    the empty list. *)
Definition get_events_by_workflow (io : bool) (tbl : table)
    (workflow_id : string) (limit : Z) : list WorkflowEvent :=
  match select_by_workflow io tbl workflow_id limit with
  | Ok events => events
  | Raise _ => []
  end.

(** The body of the [try] of [get_recent_events]. *)
Definition select_recent (io : bool) (tbl : table) (limit : Z)
  : result (list WorkflowEvent) :=
  if negb io then Raise OperationalError
  else if negb (fits_int64 limit) then Raise OverflowError
  else events_of_rows (sql_limit limit (order_by_timestamp_desc tbl)).

Definition get_recent_events (io : bool) (tbl : table) (limit : Z)
  : list WorkflowEvent :=
  match select_recent io tbl limit with
  | Ok events => events
  | Raise _ => []
  end.

(** What Python guarantees of an event handed to [store_event]: the
    timestamp is a [datetime] and no dict has a repeated key. *)
Fixpoint wf_json (v : json) : Prop :=
  match v with
  | JList l =>
      (fix all (l : list json) : Prop :=
         match l with [] => True | x :: l' => wf_json x /\ all l' end) l
  | JDict m =>
      NoDup (map fst m) /\
      (fix all (m : list (string * json)) : Prop :=
         match m with [] => True | (_, x) :: m' => wf_json x /\ all m' end) m
  | _ => True
  end.

Definition wf_event (event : WorkflowEvent) : Prop :=
  valid (timestamp event) = true /\
  wf_json (data event) /\
  match metadata event with Some m => wf_json m | None => True end.

(** The states of the table: empty at first, then grown by successful
    calls of [store_event]. *)
Inductive stored : table -> Prop :=
| stored_empty : stored []
| stored_event tbl event tbl' :
    stored tbl -> wf_event event ->
    store_event true tbl event = Ok tbl' ->
    stored tbl'.

End Storage.

(* ================================================================== *)
(** * [EventGenerator] *)

Module Generator.
Import Json DateTime Events.

(** The environment: what the [n]-th read of the outside world returns. *)
Record Env : Type := mkEnv {
  time_time : nat -> Z;            (* time.time(), microseconds *)
  datetime_now : nat -> datetime;  (* datetime.now() *)
  uuid4 : nat -> string;           (* str(uuid.uuid4()) *)
  db_ok : nat -> bool              (* can the database be opened and written *)
}.

(** A registered handler: a callable that is called with the event and
    either returns or raises. *)
Record handler : Type := mkHandler {
  handler_name : string;
  handler_raises : WorkflowEvent -> bool
}.

(** The error records of the logger. *)
Inductive log_record : Type :=
| LogStoreFailed (event_id : string) (e : exn)
| LogHandlerFailed (e : exn)
| LogEmitFailed (e : exn).

(** The fields of an [EventGenerator] object; its [storage] is the
    database of the state below. *)
Record EventGenerator : Type := mkGenerator {
  g_workflow_id : string;
  g_event_handlers : list handler;
  g_start_times : PyDict.dict Z
}.

(** [EventGenerator(workflow_id, storage)] *)
Definition new_generator (workflow_id : string) : EventGenerator :=
  mkGenerator workflow_id [] [].

(** A generator at work: its fields, the database it shares with its
    storage, the count of reads of the environment, and what can be
    observed from outside: the calls made to the handlers in order, and
    the error log. *)
Record State : Type := mkState {
  self_workflow_id : string;
  event_handlers : list handler;
  start_times : PyDict.dict Z;
  db : Storage.table;
  reads : nat;
  calls : list (string * WorkflowEvent);
  log : list log_record
}.

(** The generator [g] running on the database [tbl]. *)
Definition on_db (g : EventGenerator) (tbl : Storage.table) : State :=
  mkState (g_workflow_id g) (g_event_handlers g) (g_start_times g)
          tbl 0 [] [].

Definition self (s : State) : EventGenerator :=
  mkGenerator (self_workflow_id s) (event_handlers s) (start_times s).

(** ** The monad of state and exceptions *)

Definition M (A : Type) : Type := State -> result A * State.

Definition ret {A} (a : A) : M A := fun s => (Ok a, s).

Definition bind {A B} (m : M A) (f : A -> M B) : M B :=
  fun s =>
    match m s with
    | (Ok a, s') => f a s'
    | (Raise e, s') => (Raise e, s')
    end.

Definition raise {A} (e : exn) : M A := fun s => (Raise e, s).

(** [try: body except Exception as e: handle(e)] *)
Definition try_except {A} (body : M A) (handle : exn -> M A) : M A :=
  fun s =>
    match body s with
    | (Ok a, s') => (Ok a, s')
    | (Raise e, s') => handle e s'
    end.

Notation "x <- m ;; k" := (bind m (fun x => k))
  (at level 61, m at next level, right associativity).
Notation "m ;;; k" := (bind m (fun _ => k))
  (at level 61, right associativity).

(** [for x in l: body(x)] *)
Fixpoint for_each {A} (l : list A) (body : A -> M unit) : M unit :=
  match l with
  | [] => ret tt
  | x :: l' => body x ;;; for_each l' body
  end.

Definition get_start_times : M (PyDict.dict Z) :=
  fun s => (Ok (start_times s), s).

Definition put_start_times (t : PyDict.dict Z) : M unit :=
  fun s =>
    (Ok tt, mkState (self_workflow_id s) (event_handlers s) t (db s)
                    (reads s) (calls s) (log s)).

Definition logger_error (r : log_record) : M unit :=
  fun s =>
    (Ok tt, mkState (self_workflow_id s) (event_handlers s) (start_times s)
                    (db s) (reads s) (calls s) (log s ++ [r])).

Section WithEnv.
Variable env : Env.

(** One read of the environment. *)
Definition read {A} (oracle : Env -> nat -> A) : M A :=
  fun s =>
    (Ok (oracle env (reads s)),
     mkState (self_workflow_id s) (event_handlers s) (start_times s)
             (db s) (S (reads s)) (calls s) (log s)).

(** [self.event_handlers.append(handler)] *)
Definition add_handler (h : handler) : M unit :=
  fun s =>
    (Ok tt, mkState (self_workflow_id s) (event_handlers s ++ [h])
                    (start_times s) (db s) (reads s) (calls s) (log s)).

(** [self.storage.store_event(event)] *)
Definition storage_store_event (event : WorkflowEvent) : M unit :=
  io <- read db_ok ;;
  fun s =>
    match Storage.store_event io (db s) event with
    | Ok tbl' =>
        (Ok tt, mkState (self_workflow_id s) (event_handlers s)
                        (start_times s) tbl' (reads s) (calls s) (log s))
    | Raise e =>
        (Raise e,
         mkState (self_workflow_id s) (event_handlers s) (start_times s)
                 (db s) (reads s) (calls s)
                 (log s ++ [LogStoreFailed (event_id event) e]))
    end.

(** [handler(event)] *)
Definition call_handler (h : handler) (event : WorkflowEvent) : M unit :=
  fun s =>
    let s' := mkState (self_workflow_id s) (event_handlers s)
                      (start_times s) (db s) (reads s)
                      (calls s ++ [(handler_name h, event)]) (log s) in
    if handler_raises h event
    then (Raise (HandlerException (handler_name h)), s')
    else (Ok tt, s').

(** [_create_event] *)
Definition _create_event (event_type agent_name status message : string)
    (data : option (PyDict.dict json)) (error : option string)
    (metadata : option json) : M WorkflowEvent :=
  event_id <- read uuid4 ;;
  timestamp <- read datetime_now ;;
  (* Calculate duration if agent was started *)
  times <- get_start_times ;;
  duration <-
    match PyDict.get times agent_name with
    | Some started =>
        now <- read time_time ;;
        put_start_times (PyDict.del times agent_name) ;;;
        ret (Some (now - started)%Z)
    | None => ret None
    end ;;
  wid <- (fun s => (Ok (self_workflow_id s), s)) ;;
  ret {| event_id := event_id;
         workflow_id := wid;
         timestamp := timestamp;
         event_type := event_type;
         agent_name := agent_name;
         status := status;
         message := message;
         data := JDict (match data with Some d => d | None => [] end);
         duration := duration;
         error := error;
         metadata := metadata |}.

(** [_emit_event] *)
Definition _emit_event (event : WorkflowEvent) : M unit :=
  try_except
    ((* Store event *)
     storage_store_event event ;;;
     (* Notify handlers *)
     handlers <- (fun s => (Ok (event_handlers s), s)) ;;
     for_each handlers (fun h =>
       try_except (call_handler h event)
                  (fun e => logger_error (LogHandlerFailed e))))
    (fun e => logger_error (LogEmitFailed e)).

Definition workflow_started (data : option (PyDict.dict json)) : M unit :=
  event <- _create_event (EventType_value WORKFLOW_STARTED)
             "workflow_orchestrator" (EventStatus_value INFO)
             "Workflow execution started" data None None ;;
  _emit_event event.

Definition workflow_completed (data : option (PyDict.dict json)) : M unit :=
  event <- _create_event (EventType_value WORKFLOW_COMPLETED)
             "workflow_orchestrator" (EventStatus_value SUCCESS)
             "Workflow execution completed" data None None ;;
  _emit_event event.

Definition workflow_error (error : string)
    (data : option (PyDict.dict json)) : M unit :=
  event <- _create_event (EventType_value WORKFLOW_ERROR)
             "workflow_orchestrator" (EventStatus_value ERROR)
             "Workflow execution failed" data (Some error) None ;;
  _emit_event event.

Definition agent_started (agent_name : string)
    (data : option (PyDict.dict json)) : M unit :=
  now <- read time_time ;;
  times <- get_start_times ;;
  put_start_times (PyDict.set times agent_name now) ;;;
  event <- _create_event (EventType_value AGENT_STARTED) agent_name
             (EventStatus_value PROGRESS)
             (agent_name ++ " processing started") data None None ;;
  _emit_event event.

Definition agent_completed (agent_name : string)
    (data : option (PyDict.dict json)) : M unit :=
  event <- _create_event (EventType_value AGENT_COMPLETED) agent_name
             (EventStatus_value SUCCESS)
             (agent_name ++ " processing completed") data None None ;;
  _emit_event event.

Definition agent_error (agent_name error : string)
    (data : option (PyDict.dict json)) : M unit :=
  event <- _create_event (EventType_value AGENT_ERROR) agent_name
             (EventStatus_value ERROR)
             (agent_name ++ " processing failed") data (Some error) None ;;
  _emit_event event.

(** [unit or ''] *)
Definition or_empty (unit' : option string) : string :=
  match unit' with Some u => u | None => "" end.

Definition performance_metric (agent_name metric_name : string) (value : Z)
    (unit' : option string) : M unit :=
  let data := [("metric_name", JStr metric_name);
               ("value", JInt value);
               ("unit",
                match unit' with Some u => JStr u | None => JNull end)]
  in
  event <- _create_event (EventType_value PERFORMANCE_METRIC) agent_name
             (EventStatus_value INFO)
             ("Performance metric: " ++ metric_name ++ " = " ++
              str_of_Z value ++ or_empty unit')
             (Some data) None None ;;
  _emit_event event.

(** [progress] is an integer here, so [{progress:.1f}] is its decimal
    text followed by [.0]. *)
Definition progress_update (agent_name : string) (progress : Z)
    (message : option string) : M unit :=
  let data := [("progress", JInt progress)] in
  event <- _create_event (EventType_value PROGRESS_UPDATE) agent_name
             (EventStatus_value PROGRESS)
             (match message with
              | Some (String _ _ as m) => m
              | _ => "Progress: " ++ str_of_Z progress ++ ".0%"
              end)
             (Some data) None None ;;
  _emit_event event.

Definition status_update (agent_name status message : string)
    (data : option (PyDict.dict json)) : M unit :=
  event <- _create_event (EventType_value STATUS_UPDATE) agent_name
             status message data None None ;;
  _emit_event event.

(** The public emission calls. *)
Inductive emission : Type :=
| WorkflowStarted (data : option (PyDict.dict json))
| WorkflowCompleted (data : option (PyDict.dict json))
| WorkflowError (error : string) (data : option (PyDict.dict json))
| AgentStarted (agent_name : string) (data : option (PyDict.dict json))
| AgentCompleted (agent_name : string) (data : option (PyDict.dict json))
| AgentError (agent_name error : string) (data : option (PyDict.dict json))
| PerformanceMetric (agent_name metric_name : string) (value : Z)
    (unit' : option string)
| ProgressUpdate (agent_name : string) (progress : Z)
    (message : option string)
| StatusUpdate (agent_name status message : string)
    (data : option (PyDict.dict json)).

Definition emit (c : emission) : M unit :=
  match c with
  | WorkflowStarted d => workflow_started d
  | WorkflowCompleted d => workflow_completed d
  | WorkflowError e d => workflow_error e d
  | AgentStarted a d => agent_started a d
  | AgentCompleted a d => agent_completed a d
  | AgentError a e d => agent_error a e d
  | PerformanceMetric a m v u => performance_metric a m v u
  | ProgressUpdate a p m => progress_update a p m
  | StatusUpdate a st m d => status_update a st m d
  end.

(** The part of an emission before [_emit_event]: the event it builds. *)
Definition build (c : emission) : M WorkflowEvent :=
  match c with
  | WorkflowStarted d =>
      _create_event (EventType_value WORKFLOW_STARTED)
        "workflow_orchestrator" (EventStatus_value INFO)
        "Workflow execution started" d None None
  | WorkflowCompleted d =>
      _create_event (EventType_value WORKFLOW_COMPLETED)
        "workflow_orchestrator" (EventStatus_value SUCCESS)
        "Workflow execution completed" d None None
  | WorkflowError e d =>
      _create_event (EventType_value WORKFLOW_ERROR)
        "workflow_orchestrator" (EventStatus_value ERROR)
        "Workflow execution failed" d (Some e) None
  | AgentStarted a d =>
      now <- read time_time ;;
      times <- get_start_times ;;
      put_start_times (PyDict.set times a now) ;;;
      _create_event (EventType_value AGENT_STARTED) a
        (EventStatus_value PROGRESS) (a ++ " processing started")
        d None None
  | AgentCompleted a d =>
      _create_event (EventType_value AGENT_COMPLETED) a
        (EventStatus_value SUCCESS) (a ++ " processing completed")
        d None None
  | AgentError a e d =>
      _create_event (EventType_value AGENT_ERROR) a
        (EventStatus_value ERROR) (a ++ " processing failed")
        d (Some e) None
  | PerformanceMetric a m v u =>
      _create_event (EventType_value PERFORMANCE_METRIC) a
        (EventStatus_value INFO)
        ("Performance metric: " ++ m ++ " = " ++ str_of_Z v ++ or_empty u)
        (Some [("metric_name", JStr m);
               ("value", JInt v);
               ("unit", match u with Some u => JStr u | None => JNull end)])
        None None
  | ProgressUpdate a p m =>
      _create_event (EventType_value PROGRESS_UPDATE) a
        (EventStatus_value PROGRESS)
        (match m with
         | Some (String _ _ as m) => m
         | _ => "Progress: " ++ str_of_Z p ++ ".0%"
         end)
        (Some [("progress", JInt p)]) None None
  | StatusUpdate a st m d =>
      _create_event (EventType_value STATUS_UPDATE) a st m d None None
  end.

(** The agent an emission names. *)
Definition emission_agent (c : emission) : string :=
  match c with
  | WorkflowStarted _ | WorkflowCompleted _ | WorkflowError _ _ =>
      "workflow_orchestrator"
  | AgentStarted a _ | AgentCompleted a _ | AgentError a _ _
  | PerformanceMetric a _ _ _ | ProgressUpdate a _ _
  | StatusUpdate a _ _ _ => a
  end.

End WithEnv.

End Generator.

(* ================================================================== *)
(** * [EventManager] *)

Module Manager.
Import Events Generator.

Record EventManager : Type := mkManager {
  storage : Storage.table;
  active_generators : PyDict.dict EventGenerator
}.

(** [EventManager()] on the database [tbl]. *)
Definition new_manager (tbl : Storage.table) : EventManager :=
  mkManager tbl [].

Definition create_generator (m : EventManager) (workflow_id : string)
  : EventManager * EventGenerator :=
  let generator := new_generator workflow_id in
  (mkManager (storage m)
             (PyDict.set (active_generators m) workflow_id generator),
   generator).

Definition get_generator (m : EventManager) (workflow_id : string)
  : option EventGenerator :=
  PyDict.get (active_generators m) workflow_id.

Definition remove_generator (m : EventManager) (workflow_id : string)
  : EventManager :=
  if PyDict.mem (active_generators m) workflow_id
  then mkManager (storage m) (PyDict.del (active_generators m) workflow_id)
  else m.

Definition get_active_workflows (m : EventManager) : list string :=
  PyDict.keys (active_generators m).

Definition get_workflow_events (io : bool) (m : EventManager)
    (workflow_id : string) (limit : Z) : list WorkflowEvent :=
  Storage.get_events_by_workflow io (storage m) workflow_id limit.

Definition get_recent_events (io : bool) (m : EventManager) (limit : Z)
  : list WorkflowEvent :=
  Storage.get_recent_events io (storage m) limit.

End Manager.

(* ================================================================== *)
(** * [SSEServer]: subscribers, queue and broadcast loop *)

Module SSE.
Import Json DateTime Events.

(** The dict put on the queue by [broadcast_event]. *)
Record envelope : Type := mkEnvelope {
  env_type : string;
  env_event : WorkflowEvent;
  env_timestamp : datetime
}.

(** The messages of the stream, by their [type] field. *)
Inductive message : Type :=
| ConnectionMsg (client_id : string) (ts : datetime)
| HeartbeatMsg (ts : datetime)
| WorkflowEventMsg (e : envelope).

(** Where the generator function [generate] of one connection is
    suspended. *)
Inductive position : Type :=
| AtConnection     (* at the [yield] of the connection message *)
| AtHeartbeat      (* at the [yield] of a heartbeat *)
| Finished.

(** One stream: what it has yielded to its listener so far. *)
Record connection : Type := mkConnection {
  c_client_id : string;
  c_position : position;
  c_received : list message
}.

Record SSEServer : Type := mkServer {
  subscribers : list string;       (* a set *)
  event_queue : list envelope;     (* first in, first out *)
  connections : list connection;
  broadcast_log : list envelope    (* logger.info of _send_to_subscribers *)
}.

Definition new_server : SSEServer := mkServer [] [] [] [].

Definition set_add (x : string) (l : list string) : list string :=
  if existsb (String.eqb x) l then l else l ++ [x].

Definition set_remove (x : string) (l : list string) : list string :=
  filter (fun y => negb (String.eqb x y)) l.

Definition set_mem (x : string) (l : list string) : bool :=
  existsb (String.eqb x) l.

(** [f"client_{int(time.time() * 1000)}"], the clock being in
    microseconds. *)
Definition make_client_id (t : Z) : string :=
  "client_" ++ str_of_Z (t / 1000)%Z.

(** A listener connects: [generate] runs up to its first [yield]. *)
Definition open_stream (t : Z) (now : datetime) (srv : SSEServer)
  : SSEServer :=
  let client_id := make_client_id t in
  mkServer (set_add client_id (subscribers srv))
           (event_queue srv)
           (connections srv ++
              [mkConnection client_id AtConnection
                            [ConnectionMsg client_id now]])
           (broadcast_log srv).

Fixpoint update_nth {A} (i : nat) (f : A -> A) (l : list A) : list A :=
  match l, i with
  | [], _ => []
  | x :: l', O => f x :: l'
  | x :: l', S i' => x :: update_nth i' f l'
  end.

(** The [finally] of [generate]. *)
Definition finish (c : connection) (srv : SSEServer) (i : nat) : SSEServer :=
  mkServer (if set_mem (c_client_id c) (subscribers srv)
            then set_remove (c_client_id c) (subscribers srv)
            else subscribers srv)
           (event_queue srv)
           (update_nth i (fun c => mkConnection (c_client_id c) Finished
                                                (c_received c))
                       (connections srv))
           (broadcast_log srv).

(** The listener asks for the next chunk of stream [i]: the loop test is
    made, and a heartbeat is yielded or the generator ends. *)
Definition resume (i : nat) (now : datetime) (srv : SSEServer) : SSEServer :=
  match nth_error (connections srv) i with
  | None => srv
  | Some c =>
      match c_position c with
      | Finished => srv
      | _ =>
          if set_mem (c_client_id c) (subscribers srv) then
            mkServer (subscribers srv) (event_queue srv)
                     (update_nth i
                        (fun c => mkConnection (c_client_id c) AtHeartbeat
                                    (c_received c ++ [HeartbeatMsg now]))
                        (connections srv))
                     (broadcast_log srv)
          else finish c srv i
      end
  end.

(** The listener of stream [i] disconnects: [GeneratorExit] at the
    [yield]. *)
Definition close_stream (i : nat) (srv : SSEServer) : SSEServer :=
  match nth_error (connections srv) i with
  | None => srv
  | Some c =>
      match c_position c with
      | Finished => srv
      | _ => finish c srv i
      end
  end.

(** [broadcast_event] *)
Definition broadcast_event (event : WorkflowEvent) (now : datetime)
    (srv : SSEServer) : SSEServer :=
  match subscribers srv with
  | [] => srv
  | _ :: _ =>
      let event_data := mkEnvelope "workflow_event" event now in
      (* Add to queue for broadcasting *)
      mkServer (subscribers srv) (event_queue srv ++ [event_data])
               (connections srv) (broadcast_log srv)
  end.

(** [_send_to_subscribers]: the event is logged; nothing is written to a
    stream. *)
Definition _send_to_subscribers (event_data : envelope) (srv : SSEServer)
  : SSEServer :=
  mkServer (subscribers srv) (event_queue srv) (connections srv)
           (broadcast_log srv ++ [event_data]).

(** One round of [_broadcast_loop]: the queue is drained. *)
Definition broadcast_round (srv : SSEServer) : SSEServer :=
  fold_left (fun srv e => _send_to_subscribers e srv) (event_queue srv)
            (mkServer (subscribers srv) [] (connections srv)
                      (broadcast_log srv)).

(** What can happen to a server. *)
Inductive op : Type :=
| Open (t : Z) (now : datetime)
| Resume (i : nat) (now : datetime)
| Close (i : nat)
| Broadcast (event : WorkflowEvent) (now : datetime)
| Round.

Definition step (srv : SSEServer) (o : op) : SSEServer :=
  match o with
  | Open t now => open_stream t now srv
  | Resume i now => resume i now srv
  | Close i => close_stream i srv
  | Broadcast event now => broadcast_event event now srv
  | Round => broadcast_round srv
  end.

Definition run (ops : list op) (srv : SSEServer) : SSEServer :=
  fold_left step ops srv.

(** Has stream [i] yielded an envelope of the event [id]? *)
Definition is_event_message (id : string) (m : message) : bool :=
  match m with
  | WorkflowEventMsg e => String.eqb (event_id (env_event e)) id
  | _ => false
  end.

Definition received_event (srv : SSEServer) (i : nat) (id : string) : bool :=
  match nth_error (connections srv) i with
  | Some c => existsb (is_event_message id) (c_received c)
  | None => false
  end.

End SSE.

(* ================================================================== *)
(** * Notions used in the statements and in the proofs *)

Module JsonSpec.
Import Json.

(** What may follow a number for it to be read as written: neither a
    digit nor the start of a fraction or an exponent. *)
Definition tail_ok (k : string) : Prop :=
  starts_with_digit k = false /\ float_tail k = false.

(** A number starts with a digit or a minus sign. *)
Definition number_start (c : ascii) : bool :=
  is_digit c || Ascii.eqb c "-".

(** The first character of a value: not white space and not a closing
    bracket, so the readers of containers stop in front of it. *)
Definition value_start (c : ascii) : bool :=
  negb (is_ws c) && negb (Ascii.eqb c "]") && negb (Ascii.eqb c "}").


(** Induction on JSON values, with the hypothesis for the members of
    lists and dicts. *)
Fixpoint json_induction (P : json -> Prop)
    (Hnull : P JNull) (Hbool : forall b, P (JBool b))
    (Hint : forall n, P (JInt n)) (Hstr : forall s, P (JStr s))
    (Hlist : forall l, Forall P l -> P (JList l))
    (Hdict : forall m, Forall (fun kv => P (snd kv)) m -> P (JDict m))
    (v : json) {struct v} : P v :=
  match v with
  | JNull => Hnull
  | JBool b => Hbool b
  | JInt n => Hint n
  | JStr s => Hstr s
  | JList l =>
      Hlist l
        ((fix all (l : list json) : Forall P l :=
            match l with
            | [] => Forall_nil P
            | x :: l' =>
                Forall_cons x
                  (json_induction P Hnull Hbool Hint Hstr Hlist Hdict x)
                  (all l')
            end) l)
  | JDict m =>
      Hdict m
        ((fix all (m : list (string * json))
            : Forall (fun kv => P (snd kv)) m :=
            match m with
            | [] => Forall_nil _
            | kv :: m' =>
                Forall_cons kv
                  (json_induction P Hnull Hbool Hint Hstr Hlist Hdict (snd kv))
                  (all m')
            end) m)
  end.

(** The members of a list, each followed by [", "] but the last. *)
Fixpoint dumps_items (l : list json) (k : string) : string :=
  match l with
  | [] => k
  | x :: l' =>
      dumps_app x match l' with [] => k | _ :: _ => ", " ++ dumps_items l' k end
  end.

(** The members of a dict. *)
Fixpoint dumps_pairs (m : list (string * json)) (k : string) : string :=
  match m with
  | [] => k
  | (key, x) :: m' =>
      encode_string_app key (": " ++
        dumps_app x
          match m' with [] => k | _ :: _ => ", " ++ dumps_pairs m' k end)
  end.

(** What follows a member: the rest of the members, or the end. *)
Definition items_tail (l : list json) (k : string) : string :=
  match l with
  | [] => k
  | y :: l' => String "," (String " " (dumps_items (y :: l') k))
  end.

Definition pairs_tail (m : list (string * json)) (k : string) : string :=
  match m with
  | [] => k
  | kv :: m' => String "," (String " " (dumps_pairs (kv :: m') k))
  end.

(** The fuel that reading a value back takes. *)
Fixpoint size (v : json) : nat :=
  match v with
  | JList l => 2 + fold_right (fun x n => S (size x) + n) 0 l
  | JDict m => 2 + fold_right (fun kv n => S (size (snd kv)) + n) 0 m
  | _ => 1
  end.

(** The property proved of every value by induction. *)
Definition reads_back (v : json) : Prop :=
  Storage.wf_json v ->
  forall fuel k, (size v <= fuel)%nat -> tail_ok k ->
  scan_once fuel (dumps_app v k) = Some (v, k).

Definition items_fuel (l : list json) : nat :=
  fold_right (fun x n => S (size x) + n)%nat 0%nat l.

Definition pairs_fuel (m : list (string * json)) : nat :=
  fold_right (fun kv n => S (size (snd kv)) + n)%nat 0%nat m.

(** The text is long enough to pay for the fuel. *)
Definition long_enough (v : json) : Prop :=
  forall k,
    (size v + 2 * String.length k <= 2 * String.length (dumps_app v k))%nat.

End JsonSpec.

Module StorageSpec.
Import Json DateTime Events Storage.

(** The fraction of [isoformat]. *)
Definition fraction (us : N) : string :=
  if (us =? 0)%N then ""%string else ("." ++ pad 6 us)%string.

(** Newest first, on the text of the column. *)
Definition text_desc (r1 r2 : Row) : Prop :=
  String.leb (r_timestamp r2) (r_timestamp r1) = true.

(** [metadata] as it comes back: a falsy value is stored as [NULL]. *)
Definition stored_metadata (event : WorkflowEvent) : option json :=
  match metadata event with
  | Some m => if truthy m then Some m else None
  | None => None
  end.

(** The row was written by [store_event] from a well-formed event. *)
Definition written (r : Row) : Prop :=
  exists event, wf_event event /\ r = row_of_event event.

(** Newest first, on the timestamps of the events. *)
Definition newest_first (events : list WorkflowEvent) : Prop :=
  Sorted (fun e1 e2 => DateTime.leb (timestamp e2) (timestamp e1) = true)
         events.

End StorageSpec.

Module GeneratorSpec.
Import Generator.

(** The parts of the state that building an event leaves alone. *)
Definition same_frame (s s1 : State) : Prop :=
  self_workflow_id s1 = self_workflow_id s /\
  event_handlers s1 = event_handlers s /\
  db s1 = db s /\ calls s1 = calls s /\ log s1 = log s.

End GeneratorSpec.

Module SSESpec.
Import SSE.

(** A message other than a workflow event. *)
Definition not_event (m : message) : Prop :=
  match m with WorkflowEventMsg _ => False | _ => True end.

(** No stream has yielded a workflow event. *)
Definition quiet (srv : SSEServer) : Prop :=
  Forall (fun c => Forall not_event (c_received c)) (connections srv).

End SSESpec.

(* ================================================================== *)
(** * Concrete values used by the examples *)

Module Scenario.
Import Json DateTime Events Generator.

Definition noon : datetime := mkDatetime 2024 3 7 12 0 0 0.

(** An environment whose clock advances by 0.2 s per read and whose
    database is always available. *)
Definition env_ok : Env :=
  mkEnv (fun n => (1000000 + 200000 * Z.of_nat n)%Z)
        (fun n => mkDatetime 2024 3 7 12 0 (N.of_nat n) 0)
        (fun n => ("id-" ++ str_of_Z (Z.of_nat n))%string)
        (fun _ => true).


(** A handler that raises on every call, and one that never raises. *)
Definition bad_handler : handler := mkHandler "bad" (fun _ => true).
Definition good_handler : handler := mkHandler "good" (fun _ => false).

Definition generator_W1 : EventGenerator :=
  mkGenerator "W1" [bad_handler; good_handler] [].

Definition started : State := on_db generator_W1 [].

Definition spec_file : option (PyDict.dict json) :=
  Some [("input_file", JStr "spec.xlsx")].

Definition six_items : option (PyDict.dict json) :=
  Some [("items", JInt 6)].

(** The event of [workflow_started] in that environment. *)
Definition sample_event : WorkflowEvent :=
  mkEvent "id-0" "W1" (mkDatetime 2024 3 7 12 0 1 0)
          "workflow_started" "workflow_orchestrator" "info"
          "Workflow execution started"
          (JDict [("input_file", JStr "spec.xlsx")]) None None None.

(** Three stored events: two of workflow [W1], written out of time
    order, and one of workflow [W2]. *)
Definition event_a : WorkflowEvent :=
  mkEvent "id-a" "W1" (mkDatetime 2024 3 7 12 0 5 0)
          "agent_started" "parser" "progress" "parser processing started"
          (JDict []) (Some 600000%Z) None None.

Definition event_b : WorkflowEvent :=
  mkEvent "id-b" "W1" (mkDatetime 2024 3 7 12 0 1 250000)
          "workflow_started" "workflow_orchestrator" "info"
          "Workflow execution started"
          (JDict [("input_file", JStr "spec.xlsx")]) None None None.

Definition event_c : WorkflowEvent :=
  mkEvent "id-c" "W2" (mkDatetime 2024 3 7 12 0 9 0)
          "status_update" "mapper" "warning" "slow supplier"
          (JDict [("retries", JInt 2)]) None None (Some (JDict [])).

Definition three_rows : Storage.table :=
  [Storage.row_of_event event_a; Storage.row_of_event event_b;
   Storage.row_of_event event_c].

(** An event with nested data. *)
Definition nested_data : json :=
  JDict [("items", JInt 6);
         ("label", JStr (String dquote "doors\ 6"));
         ("flags", JList [JBool true; JNull; JList [JInt (-3); JStr ""]]);
         ("supplier", JDict [("name", JStr "ACME"); ("ok", JBool false)])].

Definition event_d : WorkflowEvent :=
  mkEvent "id-d" "W1" (mkDatetime 2024 3 7 12 0 9 500000)
          "agent_completed" "parser" "success" "parser processing completed"
          nested_data None None None.

End Scenario.

(* ================================================================== *)
(** * The wire form of an event, and sequences of calls *)

Module Wire.
Import Json DateTime Events.




End Wire.

Module Calls.
Import Json DateTime Events Storage Generator.

(** The public emission calls [cs] made one after the other. *)
Definition emit_all (env : Env) (cs : list emission) : M unit :=
  for_each cs (emit env).

(** An event as the queries return it: [metadata] goes through its
    column. *)
Definition as_stored (event : WorkflowEvent) : WorkflowEvent :=
  mkEvent (event_id event) (workflow_id event) (timestamp event)
          (event_type event) (agent_name event) (status event)
          (message event) (data event) (duration event) (error event)
          (StorageSpec.stored_metadata event).

(** The rows of one workflow. *)
Definition rows_of (tbl : table) (workflow_id : string) : list Row :=
  filter (fun r => String.eqb (r_workflow_id r) workflow_id) tbl.

(** How many records a query returns out of [n] candidates. *)
Definition limited (limit : Z) (n : nat) : nat :=
  if (limit <? 0)%Z then n else Nat.min (Z.to_nat limit) n.

(** The data an emission hands to [_create_event]. *)
Definition emission_data (c : emission) : PyDict.dict json :=
  match c with
  | WorkflowStarted d | WorkflowCompleted d | WorkflowError _ d
  | AgentStarted _ d | AgentCompleted _ d | AgentError _ _ d
  | StatusUpdate _ _ _ d => match d with Some d => d | None => [] end
  | PerformanceMetric _ m v u =>
      [("metric_name", JStr m); ("value", JInt v);
       ("unit", match u with Some u => JStr u | None => JNull end)]
  | ProgressUpdate _ p _ => [("progress", JInt p)]
  end.

(** The event type an emission stamps. *)
Definition emission_type (c : emission) : EventType :=
  match c with
  | WorkflowStarted _ => WORKFLOW_STARTED
  | WorkflowCompleted _ => WORKFLOW_COMPLETED
  | WorkflowError _ _ => WORKFLOW_ERROR
  | AgentStarted _ _ => AGENT_STARTED
  | AgentCompleted _ _ => AGENT_COMPLETED
  | AgentError _ _ _ => AGENT_ERROR
  | PerformanceMetric _ _ _ _ => PERFORMANCE_METRIC
  | ProgressUpdate _ _ _ => PROGRESS_UPDATE
  | StatusUpdate _ _ _ _ => STATUS_UPDATE
  end.

(** The error text an emission passes on. *)
Definition emission_error (c : emission) : option string :=
  match c with
  | WorkflowError e _ | AgentError _ e _ => Some e
  | _ => None
  end.

(** The fields the emission [c] of a generator of workflow [wid] stamps
    on its event. *)
Definition emitted (wid : string) (c : emission) (ev : WorkflowEvent)
  : Prop :=
  event_type ev = EventType_value (emission_type c) /\
  agent_name ev = emission_agent c /\
  workflow_id ev = wid /\
  data ev = JDict (emission_data c) /\
  error ev = emission_error c /\
  metadata ev = None.

End Calls.

Module Registry.
Import Generator Manager.

(** The calls that change the registry of a manager. *)
Inductive registry_op : Type :=
| Create (workflow_id : string)
| Remove (workflow_id : string).

Definition apply_op (m : EventManager) (o : registry_op) : EventManager :=
  match o with
  | Create w => fst (create_generator m w)
  | Remove w => remove_generator m w
  end.

Definition apply_ops (ops : list registry_op) (m : EventManager)
  : EventManager :=
  fold_left apply_op ops m.

End Registry.

Module Streams.
Import Events SSE.

(** Is stream [i] still open? *)
Definition is_open (c : connection) : bool :=
  match c_position c with Finished => false | _ => true end.

(** A stream as the protocol has it: the connection message with the
    client id of the stream, then heartbeats. *)
Definition is_heartbeat (m : message) : bool :=
  match m with HeartbeatMsg _ => true | _ => false end.

Definition well_formed_stream (c : connection) : Prop :=
  exists ts beats,
    c_received c = ConnectionMsg (c_client_id c) ts :: beats /\
    forallb is_heartbeat beats = true.

(** The envelope [broadcast_event] builds. *)
Definition envelope_of (now_event : DateTime.datetime * WorkflowEvent)
  : envelope :=
  mkEnvelope "workflow_event" (snd now_event) (fst now_event).

Definition broadcast_all
    (events : list (DateTime.datetime * WorkflowEvent)) (srv : SSEServer)
  : SSEServer :=
  fold_left (fun srv ne => broadcast_event (snd ne) (fst ne) srv) events srv.

(** No subscriber id twice, and behind every id an open stream. *)
Definition subscribed_ok (srv : SSEServer) : Prop :=
  NoDup (subscribers srv) /\
  forall id, In id (subscribers srv) ->
    exists c, In c (connections srv) /\ c_client_id c = id /\
              is_open c = true.

End Streams.

(** More concrete values for the examples. *)
Module MoreScenario.
Import Json DateTime Events Generator Scenario.



(** A run of two agents behind one workflow start. *)
Definition parser_run : list emission :=
  [WorkflowStarted spec_file;
   AgentStarted "parser" None;
   AgentCompleted "parser" six_items;
   ProgressUpdate "mapper" 40 None].

(** Two listeners, the first of which leaves, around two broadcasts. *)
Definition two_listeners : list SSE.op :=
  [SSE.Open 1709812800123456 noon;
   SSE.Resume 0 noon;
   SSE.Open 1709812801000001 noon;
   SSE.Broadcast event_a noon;
   SSE.Close 0;
   SSE.Resume 0 noon;
   SSE.Round;
   SSE.Resume 1 noon].

End MoreScenario.

Import Json JsonSpec.

(* ================================================================== *)
(** * Facts about [json.dumps] and [json.loads] *)

Section DecimalFacts.
Local Open Scope N_scope.

Lemma digit_char_code d : d < 10 -> N_of_ascii (digit_char d) = 48 + d.
Proof.
  intros H. unfold digit_char. apply N_ascii_embedding. lia.
Qed.

Lemma is_digit_digit_char d : d < 10 -> is_digit (digit_char d) = true.
Proof.
  intros H. unfold is_digit. rewrite (digit_char_code d H).
  apply andb_true_iff. split; apply N.leb_le; lia.
Qed.

Lemma digit_val_digit_char d : d < 10 -> digit_val (digit_char d) = d.
Proof.
  intros H. unfold digit_val. rewrite (digit_char_code d H). lia.
Qed.

Lemma N_digits_app fuel : forall n acc k,
  (N_digits fuel n acc ++ k)%string = N_digits fuel n (acc ++ k)%string.
Proof.
  induction fuel as [|f IH]; intros n acc k; simpl; [reflexivity|].
  destruct (n <? 10); [reflexivity|]. apply IH.
Qed.

Lemma scan_digits_N_digits fuel : forall n acc,
  n < 2 ^ N.of_nat fuel ->
  scan_digits (N_digits fuel n acc) 0 = scan_digits acc n.
Proof.
  induction fuel as [|f IH]; intros n acc H.
  - simpl in H. assert (n = 0) by lia. subst. reflexivity.
  - assert (Hm : n mod 10 < 10) by (apply N.mod_lt; lia).
    cbn [N_digits]. destruct (n <? 10) eqn:L.
    + apply N.ltb_lt in L. rewrite N.mod_small by exact L.
      cbn [scan_digits]. rewrite is_digit_digit_char by exact L.
      rewrite digit_val_digit_char by exact L. reflexivity.
    + apply N.ltb_ge in L. rewrite IH.
      * cbn [scan_digits]. rewrite is_digit_digit_char by exact Hm.
        rewrite digit_val_digit_char by exact Hm.
        f_equal. rewrite N.mul_comm. symmetry. apply N.div_mod. lia.
      * rewrite Nat2N.inj_succ, N.pow_succ_r' in H.
        generalize dependent (2 ^ N.of_nat f). intros X _ HX.
        pose proof (N.div_mod n 10 ltac:(lia)) as D.
        generalize dependent (n / 10). generalize dependent (n mod 10).
        intros. lia.
Qed.

Lemma size_nat_gt n : n < 2 ^ N.of_nat (S (N.size_nat n)).
Proof.
  rewrite Nat2N.inj_succ, N.pow_succ_r'.
  destruct n as [|p]; [simpl; lia|].
  simpl N.size_nat.
  induction p as [p IH|p IH|]; simpl Pos.size_nat;
    rewrite ?Nat2N.inj_succ, ?N.pow_succ_r'; lia.
Qed.

(** The first character of the digits of a positive number is a digit
    other than [0]. *)
Lemma N_digits_head fuel : forall n acc,
  0 < n -> n < 2 ^ N.of_nat fuel ->
  exists c r, N_digits fuel n acc = String c r /\
              is_digit c = true /\ Ascii.eqb c "0" = false.
Proof.
  induction fuel as [|f IH]; intros n acc P H.
  - simpl in H. lia.
  - cbn [N_digits]. destruct (n <? 10) eqn:L.
    + apply N.ltb_lt in L. rewrite N.mod_small by exact L.
      do 2 eexists. split; [reflexivity|].
      split; [apply is_digit_digit_char, L|].
      apply Ascii.eqb_neq. intros E.
      apply (f_equal N_of_ascii) in E. rewrite digit_char_code in E by exact L.
      change (N_of_ascii "0") with 48 in E. lia.
    + apply N.ltb_ge in L. apply IH.
      * apply N.div_str_pos. lia.
      * rewrite Nat2N.inj_succ, N.pow_succ_r' in H.
        generalize dependent (2 ^ N.of_nat f). intros X _ HX.
        pose proof (N.div_mod n 10 ltac:(lia)) as D.
        generalize dependent (n / 10). generalize dependent (n mod 10).
        intros. lia.
Qed.

End DecimalFacts.

Section NumberFacts.

Lemma scan_digits_stop k n :
  starts_with_digit k = false -> scan_digits k n = (n, k).
Proof.
  destruct k as [|c r]; simpl; [reflexivity|].
  intros H. rewrite H. reflexivity.
Qed.

Lemma scan_natural_str_of_N p k :
  starts_with_digit k = false ->
  scan_natural (str_of_N (Npos p) ++ k) = Some (Npos p, k).
Proof.
  intros H. unfold str_of_N. rewrite N_digits_app.
  destruct (N_digits_head (S (N.size_nat (Npos p))) (Npos p) ("" ++ k))
    as (c & r & E & D & Z); [reflexivity | apply size_nat_gt |].
  unfold scan_natural. rewrite E, Z, D, <- E.
  rewrite scan_digits_N_digits by apply size_nat_gt.
  simpl append. rewrite scan_digits_stop by exact H. reflexivity.
Qed.

Lemma digit_not_minus c : is_digit c = true -> Ascii.eqb c "-" = false.
Proof.
  destruct c as [[] [] [] [] [] [] [] []]; intros H; try discriminate H;
    reflexivity.
Qed.

Lemma str_of_N_head p k :
  exists c r, (str_of_N (Npos p) ++ k)%string = String c r /\
              is_digit c = true.
Proof.
  unfold str_of_N. rewrite N_digits_app.
  destruct (N_digits_head (S (N.size_nat (Npos p))) (Npos p) ("" ++ k))
    as (c & r & E & D & _); [reflexivity | apply size_nat_gt |].
  eauto.
Qed.

Lemma scan_number_str_of_Z z k :
  tail_ok k -> scan_number (str_of_Z z ++ k) = Some (z, k).
Proof.
  intros (Hd & Hf). destruct z as [|p|p].
  - unfold scan_number, scan_natural. cbn -[float_tail].
    rewrite Hf. reflexivity.
  - cbn [str_of_Z]. unfold scan_number.
    destruct (str_of_N_head p k) as (c & r & E & D).
    rewrite E, (digit_not_minus c D), <- E.
    rewrite scan_natural_str_of_N by exact Hd. rewrite Hf. reflexivity.
  - cbn [str_of_Z]. unfold scan_number.
    cbn -[float_tail scan_natural str_of_N].
    rewrite scan_natural_str_of_N by exact Hd. rewrite Hf. reflexivity.
Qed.

Lemma str_of_Z_head z k :
  exists c r, (str_of_Z z ++ k)%string = String c r /\ number_start c = true.
Proof.
  destruct z as [|p|p].
  - simpl. eauto.
  - destruct (str_of_N_head p k) as (c & r & E & D).
    exists c, r. split; [exact E|]. unfold number_start. rewrite D. reflexivity.
  - simpl. eauto.
Qed.

End NumberFacts.

Section StringFacts.

Lemma scanstring_escape s : forall k,
  scanstring (escape_app s (String dquote k)) = Some (s, k).
Proof.
  induction s as [|c s IH]; intros k; [reflexivity|].
  cbn [escape_app].
  destruct c as [[] [] [] [] [] [] [] []]; cbn; rewrite IH; reflexivity.
Qed.

End StringFacts.

Section ValueFacts.

Lemma dumps_app_list l k :
  dumps_app (JList l) k = String "[" (dumps_items l (String "]" k)).
Proof. reflexivity. Qed.

Lemma dumps_app_dict m k :
  dumps_app (JDict m) k = String "{" (dumps_pairs m (String "}" k)).
Proof. reflexivity. Qed.

Lemma wf_json_list l : Storage.wf_json (JList l) <-> Forall Storage.wf_json l.
Proof.
  induction l as [|x l IH].
  - split; [constructor | simpl; auto].
  - split.
    + intros (Hx & Hl). constructor; [exact Hx | apply IH, Hl].
    + intros H. inversion H; subst. split; [assumption | apply IH; assumption].
Qed.

Lemma wf_json_dict m :
  Storage.wf_json (JDict m) <->
  NoDup (map fst m) /\ Forall (fun kv => Storage.wf_json (snd kv)) m.
Proof.
  cbn [Storage.wf_json].
  apply and_iff_compat_l.
  induction m as [|[key x] m IH].
  - split; [constructor | auto].
  - split.
    + intros (Hx & Hm). constructor; [exact Hx | apply IH, Hm].
    + intros H. inversion H; subst. split; [assumption | apply IH; assumption].
Qed.


Lemma number_start_dispatch c :
  number_start c = true ->
  value_start c = true /\
  Ascii.eqb c dquote = false /\ Ascii.eqb c "{" = false /\
  Ascii.eqb c "[" = false /\ Ascii.eqb c "n" = false /\
  Ascii.eqb c "t" = false /\ Ascii.eqb c "f" = false.
Proof.
  destruct c as [[] [] [] [] [] [] [] []]; intros H; try discriminate H;
    repeat split.
Qed.

Lemma dumps_head v k :
  exists c r, dumps_app v k = String c r /\ value_start c = true.
Proof.
  destruct v as [|[]|n|s|l|m];
    try (do 2 eexists; split; [reflexivity | reflexivity]).
  destruct (str_of_Z_head n k) as (c & r & E & D).
  exists c, r. split; [exact E|]. apply number_start_dispatch, D.
Qed.

Lemma skip_ws_start c r :
  value_start c = true -> skip_ws (String c r) = String c r.
Proof.
  unfold value_start. intros H. cbn [skip_ws].
  destruct (is_ws c); [discriminate H | reflexivity].
Qed.

Lemma skip_ws_dumps v k : skip_ws (dumps_app v k) = dumps_app v k.
Proof.
  destruct (dumps_head v k) as (c & r & E & D). rewrite E.
  apply skip_ws_start, D.
Qed.

Lemma dumps_items_cons x l k :
  dumps_items (x :: l) k = dumps_app x (items_tail l k).
Proof. destruct l; reflexivity. Qed.

Lemma dumps_pairs_cons key x m k :
  dumps_pairs ((key, x) :: m) k
  = String dquote (escape_app key
      (String dquote (String ":" (String " "
         (dumps_app x (pairs_tail m k)))))).
Proof. destruct m; reflexivity. Qed.

Lemma tail_ok_bracket c k :
  number_start c = false ->
  Ascii.eqb c "." = false -> Ascii.eqb c "e" = false ->
  Ascii.eqb c "E" = false ->
  tail_ok (String c k).
Proof.
  unfold number_start, tail_ok. intros N D E1 E2.
  apply orb_false_iff in N. destruct N as (N & _).
  cbn. rewrite N, D, E1, E2. auto.
Qed.

Lemma array_loop_dumps l : forall x values fuel k,
  Forall reads_back (x :: l) -> Forall Storage.wf_json (x :: l) ->
  (items_fuel (x :: l) <= fuel)%nat ->
  array_loop fuel (dumps_app x (items_tail l (String "]" k))) values
  = Some (JList (values ++ x :: l), k).
Proof.
  induction l as [|y l IH]; intros x values fuel k HP HW Hf;
    inversion HP as [|? ? Px HP']; inversion HW as [|? ? Wx HW']; subst;
    unfold items_fuel in Hf; cbn [fold_right] in Hf;
    (destruct fuel as [|f]; [lia|]);
    cbn [array_loop].
  - rewrite (Px Wx) by (lia || (apply tail_ok_bracket; reflexivity)).
    reflexivity.
  - rewrite (Px Wx) by (lia || (apply tail_ok_bracket; reflexivity)).
    cbn [items_tail]. rewrite dumps_items_cons.
    cbn -[dumps_app array_loop items_tail].
    rewrite skip_ws_dumps.
    rewrite IH; try assumption.
    + rewrite <- app_assoc. reflexivity.
    + unfold items_fuel. cbn [fold_right]. lia.
Qed.

Lemma dict_set_fresh {V} (d : PyDict.dict V) key v :
  ~ In key (map fst d) -> PyDict.set d key v = d ++ [(key, v)].
Proof.
  induction d as [|[k' v'] d IH]; simpl; intros H; [reflexivity|].
  destruct (String.eqb key k') eqn:E.
  - apply String.eqb_eq in E. subst. tauto.
  - rewrite IH by tauto. reflexivity.
Qed.

Lemma of_pairs_nodup {V} (m : list (string * V)) :
  NoDup (map fst m) -> PyDict.of_pairs m = m.
Proof.
  unfold PyDict.of_pairs.
  cut (forall d, NoDup (map fst (d ++ m)) ->
         fold_left (fun d kv => PyDict.set d (fst kv) (snd kv)) m d = d ++ m).
  { intros H. apply (H []). }
  induction m as [|[key v] m IH]; intros d H; simpl.
  - rewrite app_nil_r. reflexivity.
  - rewrite dict_set_fresh.
    + rewrite IH; rewrite <- app_assoc; [reflexivity | exact H].
    + rewrite map_app in H. simpl in H.
      apply NoDup_remove_2 in H. intros I. apply H.
      apply in_or_app. left. exact I.
Qed.

Lemma object_loop_dumps m : forall key x pairs fuel k,
  Forall (fun kv => reads_back (snd kv)) ((key, x) :: m) ->
  Forall (fun kv => Storage.wf_json (snd kv)) ((key, x) :: m) ->
  (pairs_fuel ((key, x) :: m) <= fuel)%nat ->
  object_loop fuel
    (escape_app key
       (String dquote (String ":" (String " "
          (dumps_app x (pairs_tail m (String "}" k)))))))
    pairs
  = Some (JDict (PyDict.of_pairs (pairs ++ (key, x) :: m)), k).
Proof.
  induction m as [|[key' y] m IH]; intros key x pairs fuel k HP HW Hf;
    inversion HP as [|? ? Px HP']; inversion HW as [|? ? Wx HW']; subst;
    cbn [snd] in Px, Wx;
    unfold pairs_fuel in Hf; cbn [fold_right snd] in Hf;
    (destruct fuel as [|f]; [lia|]);
    cbn [object_loop]; rewrite scanstring_escape;
    cbn -[scan_once dumps_app pairs_tail object_loop];
    rewrite skip_ws_dumps.
  - rewrite (Px Wx) by (lia || (apply tail_ok_bracket; reflexivity)).
    reflexivity.
  - rewrite (Px Wx) by (lia || (apply tail_ok_bracket; reflexivity)).
    cbn [pairs_tail]. rewrite dumps_pairs_cons.
    cbn -[dumps_app object_loop pairs_tail escape_app].
    rewrite IH; try assumption.
    + rewrite <- app_assoc. reflexivity.
    + unfold pairs_fuel. cbn [fold_right snd]. lia.
Qed.

Lemma scan_once_dumps v : reads_back v.
Proof.
  induction v using json_induction; intros W fuel k Hf Hk;
    (destruct fuel as [|f]; [cbn in Hf; lia|]).
  - reflexivity.
  - destruct b; reflexivity.
  - destruct (str_of_Z_head n k) as (c & r & E & D).
    destruct (number_start_dispatch c D) as (_ & Q & B & A & N & T & F).
    cbn [dumps_app scan_once]. rewrite E, Q, B, A, N, T, F, <- E.
    rewrite scan_number_str_of_Z by exact Hk. reflexivity.
  - cbn [dumps_app scan_once encode_string_app].
    cbn -[scanstring]. rewrite scanstring_escape. reflexivity.
  - rewrite dumps_app_list. apply wf_json_list in W.
    cbn [size] in Hf. fold (items_fuel l) in Hf.
    destruct f as [|f]; [lia|].
    destruct l as [|x l]; [reflexivity|].
    rewrite dumps_items_cons.
    cbn -[dumps_app array_loop skip_ws items_tail].
    destruct (dumps_head x (items_tail l (String "]" k))) as (c & r & E & D).
    rewrite E, (skip_ws_start c r D).
    assert (N : Ascii.eqb c "]" = false).
    { unfold value_start in D. destruct (Ascii.eqb c "]"); [|reflexivity].
      rewrite andb_false_r in D. discriminate D. }
    rewrite N, <- E. apply array_loop_dumps; try assumption. lia.
  - rewrite dumps_app_dict. apply wf_json_dict in W. destruct W as (ND & W).
    cbn [size] in Hf. fold (pairs_fuel m) in Hf.
    destruct f as [|f]; [lia|].
    destruct m as [|[key x] m]; [reflexivity|].
    rewrite dumps_pairs_cons.
    cbn -[object_loop dumps_app pairs_tail escape_app].
    rewrite (object_loop_dumps m key x [] f k H W) by lia.
    cbn [app]. rewrite of_pairs_nodup by exact ND. reflexivity.
Qed.

End ValueFacts.

Section LoadsFacts.

Lemma length_append (a b : string) :
  String.length (a ++ b) = (String.length a + String.length b)%nat.
Proof. induction a as [|c a IH]; simpl; [reflexivity | rewrite IH; reflexivity]. Qed.

Lemma N_digits_length fuel : forall n acc,
  (String.length acc <= String.length (N_digits fuel n acc))%nat.
Proof.
  induction fuel as [|f IH]; intros n acc; cbn [N_digits]; [lia|].
  destruct (n <? 10)%N; [simpl; lia|].
  etransitivity; [|apply IH]. simpl. lia.
Qed.

Lemma str_of_Z_length n : (1 <= String.length (str_of_Z n))%nat.
Proof.
  assert (H : forall p, (1 <= String.length (str_of_N (Npos p)))%nat).
  { intros p. unfold str_of_N. cbn [N_digits].
    destruct (Npos p <? 10)%N; [simpl; lia|].
    etransitivity; [|apply N_digits_length]. simpl. lia. }
  destruct n as [|p|p]; simpl; [lia | apply H | lia].
Qed.

Lemma escape_app_length s : forall k,
  (String.length k <= String.length (escape_app s k))%nat.
Proof.
  induction s as [|c s IH]; intros k; cbn [escape_app]; [lia|].
  rewrite length_append. specialize (IH k). lia.
Qed.

Lemma dumps_items_length l : forall k,
  Forall long_enough l ->
  (items_fuel l + 2 * String.length k
   <= 2 * String.length (dumps_items l k) + 1)%nat.
Proof.
  induction l as [|x l IH]; intros k H.
  - simpl. lia.
  - inversion H as [|? ? Hx Hl]; subst.
    rewrite dumps_items_cons. unfold items_fuel. cbn [fold_right].
    fold (items_fuel l).
    specialize (Hx (items_tail l k)). specialize (IH k Hl).
    destruct l as [|y l]; cbn [items_tail] in *.
    + unfold items_fuel in *. simpl in *. lia.
    + cbn [String.length] in Hx. lia.
Qed.

Lemma dumps_pairs_length m : forall k,
  Forall (fun kv => long_enough (snd kv)) m ->
  (pairs_fuel m + 2 * String.length k
   <= 2 * String.length (dumps_pairs m k) + 1)%nat.
Proof.
  induction m as [|[key x] m IH]; intros k H.
  - simpl. lia.
  - inversion H as [|? ? Hx Hm]; subst. cbn [snd] in Hx.
    rewrite dumps_pairs_cons. unfold pairs_fuel. cbn [fold_right snd].
    fold (pairs_fuel m).
    specialize (Hx (pairs_tail m k)). specialize (IH k Hm).
    cbn [String.length].
    match goal with
    | |- context [escape_app key ?t] =>
        pose proof (escape_app_length key t) as He
    end.
    cbn [String.length] in He.
    destruct m as [|kv m]; cbn [pairs_tail] in *.
    + unfold pairs_fuel in *. simpl in *. lia.
    + cbn [String.length] in Hx. lia.
Qed.

Lemma dumps_long_enough v : long_enough v.
Proof.
  induction v using json_induction; intros k.
  - simpl. lia.
  - destruct b; simpl; lia.
  - cbn [dumps_app size]. rewrite length_append.
    pose proof (str_of_Z_length n). lia.
  - cbn [dumps_app size encode_string_app String.length].
    pose proof (escape_app_length s (String dquote k)) as He.
    cbn [String.length] in He. lia.
  - rewrite dumps_app_list. cbn [size String.length]. fold (items_fuel l).
    pose proof (dumps_items_length l (String "]" k) H) as Hl.
    cbn [String.length] in Hl. lia.
  - rewrite dumps_app_dict. cbn [size String.length]. fold (pairs_fuel m).
    pose proof (dumps_pairs_length m (String "}" k) H) as Hm.
    cbn [String.length] in Hm. lia.
Qed.

(** Serialising a value and reading the text back gives the value. *)
Lemma loads_dumps v : Storage.wf_json v -> loads (dumps v) = Some v.
Proof.
  intros W. unfold loads, dumps. rewrite skip_ws_dumps.
  rewrite (scan_once_dumps v W).
  - reflexivity.
  - pose proof (dumps_long_enough v "") as H. simpl in H. lia.
  - split; reflexivity.
Qed.

End LoadsFacts.

Import DateTime StorageSpec.

(* ================================================================== *)
(** * Facts about [isoformat] and [fromisoformat] *)

Section DateTimeFacts.
Local Open Scope N_scope.

Lemma pad_length w n : String.length (pad w n) = w.
Proof. induction w as [|w IH]; simpl; [reflexivity | rewrite IH; reflexivity]. Qed.

Lemma digit_of_lt n w : (n / 10 ^ N.of_nat w) mod 10 < 10.
Proof. apply N.mod_lt. lia. Qed.

(** The last [w + 1] digits: the digit at [10^w], then the last [w]. *)
Lemma mod_pow_succ n w :
  n mod 10 ^ N.of_nat (S w)
  = (n / 10 ^ N.of_nat w) mod 10 * 10 ^ N.of_nat w + n mod 10 ^ N.of_nat w.
Proof.
  rewrite Nat2N.inj_succ, N.pow_succ_r'.
  rewrite (N.mul_comm 10).
  rewrite N.Div0.mod_mul_r. lia.
Qed.

Lemma take_digits_pad w : forall n acc rest,
  take_digits w (pad w n ++ rest) acc
  = Some (acc * 10 ^ N.of_nat w + n mod 10 ^ N.of_nat w, rest).
Proof.
  induction w as [|w IH]; intros n acc rest.
  - cbn [take_digits pad append]. simpl N.of_nat. rewrite N.pow_0_r, N.mod_1_r.
    f_equal. f_equal. lia.
  - cbn [take_digits pad append].
    rewrite is_digit_digit_char by apply digit_of_lt.
    rewrite digit_val_digit_char by apply digit_of_lt.
    rewrite IH, mod_pow_succ. f_equal. f_equal.
    rewrite Nat2N.inj_succ, N.pow_succ_r'. 
    generalize ((n / 10 ^ N.of_nat w) mod 10) (n mod 10 ^ N.of_nat w)
               (10 ^ N.of_nat w).
    intros. lia.
Qed.


Lemma days_in_month_le y m : days_in_month y m <= 31.
Proof.
  unfold days_in_month.
  repeat match goal with |- context [if ?b then _ else _] => destruct b end;
    lia.
Qed.

Lemma valid_bounds d :
  valid d = true ->
  year d < 10 ^ 4 /\ month d < 10 ^ 2 /\ day d < 10 ^ 2 /\
  hour d < 10 ^ 2 /\ minute d < 10 ^ 2 /\ second d < 10 ^ 2 /\
  microsecond d < 10 ^ 6.
Proof.
  unfold valid. rewrite !andb_true_iff, !N.leb_le.
  pose proof (days_in_month_le (year d) (month d)).
  change (10 ^ 4) with 10000. change (10 ^ 2) with 100.
  change (10 ^ 6) with 1000000. lia.
Qed.

Lemma append_empty_r (s : string) : (s ++ "")%string = s.
Proof. induction s as [|c s IH]; simpl; [reflexivity | rewrite IH; reflexivity]. Qed.

(** Reading back what [isoformat] wrote. *)
Lemma fromisoformat_isoformat d :
  valid d = true -> fromisoformat (isoformat d) = Some d.
Proof.
  intros V. destruct (valid_bounds d V) as (Hy & Hm & Hd & Hh & Hi & Hs & Hu).
  destruct d as [y m dd h mi sec us].
  cbn [year month day hour minute second microsecond] in *.
  unfold fromisoformat, isoformat.
  cbn [year month day hour minute second microsecond].
  repeat (rewrite take_digits_pad;
          cbn -[take_digits pad N.pow N.modulo N.mul N.add N.eqb valid]).
  simpl N.of_nat.
  rewrite !N.mod_small by assumption. rewrite !N.mul_0_l, !N.add_0_l.
  destruct (us =? 0) eqn:U.
  - apply N.eqb_eq in U. subst us. cbn -[valid]. rewrite V. reflexivity.
  - cbn -[take_digits pad N.pow N.modulo N.mul N.add valid].
    rewrite <- (append_empty_r (pad 6 us)).
    rewrite take_digits_pad. simpl N.of_nat.
    rewrite N.mod_small by assumption. rewrite N.mul_0_l, N.add_0_l.
    cbn -[valid]. rewrite V. reflexivity.
Qed.


(** ** [isoformat] preserves the order *)

Lemma compare_append a1 : forall a2 b1 b2,
  String.length a1 = String.length a2 ->
  String.compare (a1 ++ b1) (a2 ++ b2)
  = lex (String.compare a1 a2) (String.compare b1 b2).
Proof.
  induction a1 as [|c a1 IH]; intros [|c' a2] b1 b2 L; try discriminate L.
  - reflexivity.
  - cbn [append String.compare].
    destruct (Ascii.compare c c'); try reflexivity.
    apply IH. simpl in L. congruence.
Qed.

Lemma add_compare_l p a b : (p + a ?= p + b) = (a ?= b).
Proof.
  destruct (a ?= b) eqn:C.
  - apply N.compare_eq in C. subst. apply N.compare_refl.
  - change (a < b) in C. apply N.compare_lt_iff. lia.
  - apply N.compare_gt_iff in C. apply N.compare_gt_iff. lia.
Qed.

Lemma compare_digit_char a b :
  a < 10 -> b < 10 ->
  Ascii.compare (digit_char a) (digit_char b) = (a ?= b).
Proof.
  intros Ha Hb. unfold Ascii.compare.
  rewrite !digit_char_code by assumption.
  apply add_compare_l.
Qed.

Lemma compare_pad w : forall a b,
  String.compare (pad w a) (pad w b)
  = (a mod 10 ^ N.of_nat w ?= b mod 10 ^ N.of_nat w).
Proof.
  induction w as [|w IH]; intros a b.
  - simpl. rewrite !N.mod_1_r. reflexivity.
  - cbn [pad String.compare].
    rewrite compare_digit_char by apply digit_of_lt.
    rewrite IH, !mod_pow_succ.
    assert (P : 0 < 10 ^ N.of_nat w) by (apply N.neq_0_lt_0, N.pow_nonzero; lia).
    pose proof (N.mod_lt a (10 ^ N.of_nat w) ltac:(lia)) as Ra.
    pose proof (N.mod_lt b (10 ^ N.of_nat w) ltac:(lia)) as Rb.
    generalize dependent (a mod 10 ^ N.of_nat w).
    generalize dependent (b mod 10 ^ N.of_nat w).
    generalize ((a / 10 ^ N.of_nat w) mod 10) ((b / 10 ^ N.of_nat w) mod 10).
    generalize dependent (10 ^ N.of_nat w).
    intros p _ P da db rb Rb ra Ra.
    destruct (da ?= db) eqn:C.
    + apply N.compare_eq in C. subst db.
      symmetry. apply add_compare_l.
    + change (da < db) in C. symmetry. apply N.compare_lt_iff. nia.
    + apply N.compare_gt_iff in C. symmetry. apply N.compare_gt_iff. nia.
Qed.

Lemma compare_pad_small w a b :
  a < 10 ^ N.of_nat w -> b < 10 ^ N.of_nat w ->
  String.compare (pad w a) (pad w b) = (a ?= b).
Proof.
  intros Ha Hb. rewrite compare_pad, !N.mod_small by assumption. reflexivity.
Qed.

Lemma compare_fraction a b :
  a < 10 ^ 6 -> b < 10 ^ 6 ->
  String.compare (fraction a) (fraction b) = (a ?= b).
Proof.
  intros Ha Hb. unfold fraction.
  destruct (a =? 0) eqn:A; destruct (b =? 0) eqn:B;
    rewrite ?N.eqb_eq, ?N.eqb_neq in *; subst.
  - reflexivity.
  - symmetry. apply N.compare_lt_iff. lia.
  - symmetry. apply N.compare_gt_iff. lia.
  - cbn [append String.compare]. change (Ascii.compare "." ".") with Eq.
    cbv iota. apply (compare_pad_small 6); assumption.
Qed.

Lemma isoformat_compare a b :
  valid a = true -> valid b = true ->
  String.compare (isoformat a) (isoformat b) = DateTime.compare a b.
Proof.
  intros Va Vb.
  destruct (valid_bounds a Va) as (Hy & Hm & Hd & Hh & Hi & Hs & Hu).
  destruct (valid_bounds b Vb) as (Hy' & Hm' & Hd' & Hh' & Hi' & Hs' & Hu').
  unfold isoformat, DateTime.compare.
  fold (fraction (microsecond a)). fold (fraction (microsecond b)).
  repeat (rewrite compare_append by (rewrite !pad_length; reflexivity);
          rewrite compare_pad_small by assumption;
          f_equal;
          try (cbn [append String.compare];
               match goal with
               | |- context [Ascii.compare ?c ?c] =>
                   change (Ascii.compare c c) with Eq
               end; cbv iota)).
  apply compare_fraction; assumption.
Qed.

Lemma isoformat_leb a b :
  valid a = true -> valid b = true ->
  String.leb (isoformat a) (isoformat b) = DateTime.leb a b.
Proof.
  intros Va Vb. unfold String.leb, DateTime.leb.
  rewrite isoformat_compare by assumption. reflexivity.
Qed.

End DateTimeFacts.

Import Events Storage.

(* ================================================================== *)
(** * Facts about the event storage *)

Section StorageFacts.

(** ** Sorting and limiting *)

Lemma insert_desc_Forall (P : Row -> Prop) r l :
  P r -> Forall P l -> Forall P (insert_desc r l).
Proof.
  intros Hr. induction 1 as [|x l Hx Hl IH]; simpl.
  - repeat constructor. exact Hr.
  - destruct (String.leb _ _); repeat constructor; assumption.
Qed.

Lemma order_by_Forall (P : Row -> Prop) l :
  Forall P l -> Forall P (order_by_timestamp_desc l).
Proof.
  induction 1 as [|x l Hx Hl IH]; simpl; [constructor|].
  apply insert_desc_Forall; assumption.
Qed.

Lemma insert_desc_In r x l : In x (insert_desc r l) <-> x = r \/ In x l.
Proof.
  induction l as [|y l IH]; simpl.
  - intuition congruence.
  - destruct (String.leb _ _); simpl; [intuition congruence|].
    rewrite IH. intuition congruence.
Qed.

Lemma order_by_In x l : In x (order_by_timestamp_desc l) <-> In x l.
Proof.
  induction l as [|y l IH]; simpl; [tauto|].
  rewrite insert_desc_In, IH. intuition congruence.
Qed.

Lemma insert_desc_length r l : List.length (insert_desc r l) = S (List.length l).
Proof.
  induction l as [|y l IH]; simpl; [reflexivity|].
  destruct (String.leb _ _); simpl; [reflexivity | rewrite IH; reflexivity].
Qed.

Lemma order_by_length l : List.length (order_by_timestamp_desc l) = List.length l.
Proof.
  induction l as [|y l IH]; simpl; [reflexivity|].
  rewrite insert_desc_length, IH. reflexivity.
Qed.

Lemma insert_desc_HdRel r x l :
  text_desc x r -> HdRel text_desc x l -> HdRel text_desc x (insert_desc r l).
Proof.
  intros Hr Hl. destruct l as [|y l]; simpl.
  - constructor. exact Hr.
  - destruct (String.leb _ _); constructor; [exact Hr|].
    inversion Hl; assumption.
Qed.

Lemma insert_desc_Sorted r l :
  Sorted text_desc l -> Sorted text_desc (insert_desc r l).
Proof.
  induction 1 as [|x l Hs IH Hh]; simpl.
  - repeat constructor.
  - destruct (String.leb (r_timestamp x) (r_timestamp r)) eqn:E.
    + constructor; [constructor; assumption|]. constructor. exact E.
    + constructor; [exact IH|]. apply insert_desc_HdRel; [|exact Hh].
      unfold text_desc.
      destruct (String.leb_total (r_timestamp x) (r_timestamp r)) as [T|T];
        [congruence | exact T].
Qed.

Lemma order_by_Sorted l : Sorted text_desc (order_by_timestamp_desc l).
Proof.
  induction l as [|x l IH]; simpl; [constructor|].
  apply insert_desc_Sorted, IH.
Qed.

Lemma Sorted_firstn {A} (R : A -> A -> Prop) n : forall l,
  Sorted R l -> Sorted R (firstn n l).
Proof.
  induction n as [|n IH]; intros l H; simpl; [constructor|].
  destruct l as [|x l]; [constructor|].
  inversion H as [|? ? Hs Hh]; subst.
  constructor; [apply IH, Hs|].
  destruct l as [|y l]; destruct n; simpl; constructor.
  inversion Hh; assumption.
Qed.

Lemma sql_limit_Sorted limit l :
  Sorted text_desc l -> Sorted text_desc (sql_limit limit l).
Proof.
  unfold sql_limit. destruct (limit <? 0)%Z; [auto | apply Sorted_firstn].
Qed.

Lemma sql_limit_incl limit l x : In x (sql_limit limit l) -> In x l.
Proof.
  unfold sql_limit. destruct (limit <? 0)%Z; [auto|].
  intros H. rewrite <- (firstn_skipn (Z.to_nat limit) l).
  apply in_or_app. left. exact H.
Qed.

Lemma sql_limit_length limit l :
  (0 <= limit)%Z -> (Z.of_nat (List.length (sql_limit limit l)) <= limit)%Z.
Proof.
  intros H. unfold sql_limit.
  destruct (limit <? 0)%Z eqn:E; [apply Z.ltb_lt in E; lia|].
  pose proof (firstn_le_length (Z.to_nat limit) l). 
  rewrite length_firstn. lia.
Qed.

Lemma sql_limit_all limit l :
  (limit < 0 \/ Z.of_nat (List.length l) <= limit)%Z -> sql_limit limit l = l.
Proof.
  intros H. unfold sql_limit.
  destruct (limit <? 0)%Z eqn:E; [reflexivity|].
  apply Z.ltb_ge in E. apply firstn_all2. lia.
Qed.

(** ** Decoding rows *)

Lemma events_of_rows_Forall2 rows : forall events,
  events_of_rows rows = Ok events ->
  Forall2 (fun r e => event_of_row r = Ok e) rows events.
Proof.
  induction rows as [|r rows IH]; intros events H; simpl in H.
  - inversion H. constructor.
  - destruct (event_of_row r) as [ev|] eqn:E; [|discriminate H].
    destruct (events_of_rows rows) as [evs|]; [|discriminate H].
    inversion H; subst. constructor; [exact E | apply IH; reflexivity].
Qed.

Lemma events_of_rows_length rows events :
  events_of_rows rows = Ok events -> List.length events = List.length rows.
Proof.
  intros H. apply events_of_rows_Forall2 in H.
  symmetry. eapply Forall2_length, H.
Qed.


(** ** The rows of a stored table *)

Lemma dumps_not_empty v : String.eqb (dumps v) "" = false.
Proof.
  unfold dumps. destruct (dumps_head v "") as (c & r & E & _).
  rewrite E. reflexivity.
Qed.

Lemma event_of_row_written event :
  wf_event event ->
  event_of_row (row_of_event event)
  = Ok (mkEvent (event_id event) (workflow_id event) (timestamp event)
                (event_type event) (agent_name event) (status event)
                (message event) (data event) (duration event) (error event)
                (stored_metadata event)).
Proof.
  intros (V & Wd & Wm). unfold event_of_row, row_of_event, stored_metadata.
  cbn [r_timestamp r_data r_metadata r_event_id r_workflow_id r_event_type
       r_agent_name r_status r_message r_duration r_error].
  rewrite fromisoformat_isoformat by exact V.
  rewrite loads_dumps by exact Wd.
  destruct (metadata event) as [m|]; [|reflexivity].
  destruct (truthy m); [|reflexivity].
  rewrite dumps_not_empty, loads_dumps by exact Wm. reflexivity.
Qed.

Lemma stored_written tbl : stored tbl -> Forall written tbl.
Proof.
  induction 1 as [|tbl event tbl' _ IH W St]; [constructor|].
  unfold store_event in St. cbn [negb] in St.
  destruct (has_event_id tbl (event_id event)); [discriminate St|].
  inversion St; subst. apply Forall_app. split; [exact IH|].
  repeat constructor. exists event. auto.
Qed.

Lemma has_event_id_In tbl id :
  has_event_id tbl id = false -> ~ In id (map r_event_id tbl).
Proof.
  unfold has_event_id. intros H I. apply in_map_iff in I.
  destruct I as (r & E & I).
  assert (X : existsb (fun r => String.eqb (r_event_id r) id) tbl = true).
  { apply existsb_exists. exists r. split; [exact I|].
    apply String.eqb_eq, E. }
  congruence.
Qed.

Lemma stored_unique tbl : stored tbl -> NoDup (map r_event_id tbl).
Proof.
  induction 1 as [|tbl event tbl' _ IH W St]; [constructor|].
  unfold store_event in St. cbn [negb] in St.
  destruct (has_event_id tbl (event_id event)) eqn:E; [discriminate St|].
  inversion St; subst. rewrite map_app. cbn [map].
  apply has_event_id_In in E.
  assert (G : forall (l : list string) x,
            NoDup l -> ~ In x l -> NoDup (l ++ [x])).
  { clear. induction l as [|y l IHl]; intros x N I; simpl.
    - repeat constructor. tauto.
    - inversion N; subst. constructor.
      + intros J. apply in_app_or in J. simpl in *. intuition congruence.
      + apply IHl; [assumption|]. simpl in I. tauto. }
  apply G; assumption.
Qed.


(** What a decoded event shares with its row. *)
Lemma event_of_row_fields r e :
  event_of_row r = Ok e ->
  event_id e = r_event_id r /\ workflow_id e = r_workflow_id r.
Proof.
  unfold event_of_row. intros H.
  destruct (fromisoformat _); [|discriminate H].
  destruct (loads (r_data r)); [|discriminate H].
  destruct (r_metadata r) as [txt|].
  - destruct (String.eqb txt "").
    + inversion H. auto.
    + destruct (loads txt); inversion H. auto.
  - inversion H. auto.
Qed.

Lemma written_decodes r :
  written r ->
  exists e, event_of_row r = Ok e /\
            r_timestamp r = isoformat (timestamp e) /\
            valid (timestamp e) = true.
Proof.
  intros (event & W & E). subst r.
  rewrite (event_of_row_written event W). eexists. split; [reflexivity|].
  cbn [timestamp]. split; [reflexivity | apply W].
Qed.

Lemma events_of_rows_written rows :
  Forall written rows -> exists events, events_of_rows rows = Ok events.
Proof.
  induction 1 as [|r rows Hr _ (events & IH)]; simpl; [eauto|].
  destruct (written_decodes r Hr) as (e & E & _).
  rewrite E, IH. eauto.
Qed.


(** ** The queries *)

Lemma decoded_newest_first rows : forall events,
  Forall written rows -> Sorted text_desc rows ->
  events_of_rows rows = Ok events -> newest_first events.
Proof.
  induction rows as [|r rows IH]; intros events W S H; simpl in H.
  - inversion H. constructor.
  - destruct (event_of_row r) as [e|] eqn:E; [|discriminate H].
    destruct (events_of_rows rows) as [evs|] eqn:Es; [|discriminate H].
    inversion H; subst. clear H.
    inversion W as [|? ? Wr W']; subst.
    inversion S as [|? ? S' Hd]; subst.
    constructor; [apply IH; auto|].
    destruct rows as [|r2 rows]; simpl in Es.
    + inversion Es. constructor.
    + destruct (event_of_row r2) as [e2|] eqn:E2; [|discriminate Es].
      destruct (events_of_rows rows); [|discriminate Es].
      inversion Es; subst. constructor.
      inversion Hd as [|? ? T]; subst. unfold text_desc in T.
      inversion W' as [|? ? Wr2 _]; subst.
      destruct (written_decodes r Wr) as (e' & D & Ts & V).
      destruct (written_decodes r2 Wr2) as (e2' & D2 & Ts2 & V2).
      rewrite E in D. inversion D; subst e'.
      rewrite E2 in D2. inversion D2; subst e2'.
      rewrite Ts, Ts2, isoformat_leb in T by assumption. exact T.
Qed.

Lemma filter_Forall {A} (P : A -> Prop) f (l : list A) :
  Forall P l -> Forall P (filter f l).
Proof.
  induction 1 as [|x l Hx Hl IH]; simpl; [constructor|].
  destruct (f x); [constructor|]; assumption.
Qed.

Lemma sql_limit_Forall (P : Row -> Prop) limit l :
  Forall P l -> Forall P (sql_limit limit l).
Proof.
  intros H. apply Forall_forall. intros x I.
  apply sql_limit_incl in I. rewrite Forall_forall in H. auto.
Qed.

Lemma select_newest_first rows limit events :
  Forall written rows ->
  events_of_rows (sql_limit limit (order_by_timestamp_desc rows)) = Ok events ->
  newest_first events.
Proof.
  intros W H. eapply decoded_newest_first; [| |exact H].
  - apply sql_limit_Forall, order_by_Forall, W.
  - apply sql_limit_Sorted, order_by_Sorted.
Qed.

(** C4.  On every state of the store and for every limit, both queries
    return the events with non-increasing timestamps. *)
Theorem queries_return_newest_first :
  forall io tbl workflow_id limit,
    stored tbl ->
    newest_first (get_events_by_workflow io tbl workflow_id limit) /\
    newest_first (get_recent_events io tbl limit).
Proof.
  intros io tbl w limit St. apply stored_written in St.
  unfold get_events_by_workflow, select_by_workflow,
         get_recent_events, select_recent.
  destruct (negb io); [split; constructor|].
  destruct (negb (fits_int64 limit)); [split; constructor|].
  split.
  - destruct (events_of_rows _) as [events|] eqn:E; [|constructor].
    eapply select_newest_first; [|exact E]. apply filter_Forall, St.
  - destruct (events_of_rows _) as [events|] eqn:E; [|constructor].
    eapply select_newest_first; [exact St | exact E].
Qed.

Lemma decoded_workflow w rows : forall events,
  Forall (fun r => r_workflow_id r = w) rows ->
  events_of_rows rows = Ok events ->
  Forall (fun e => workflow_id e = w) events.
Proof.
  intros events F H. apply events_of_rows_Forall2 in H.
  induction H as [|r e rows events E _ IH]; [constructor|].
  inversion F; subst. constructor; [|apply IH; assumption].
  apply event_of_row_fields in E. destruct E as (_ & E). congruence.
Qed.

Lemma filter_workflow w tbl :
  Forall (fun r => r_workflow_id r = w)
         (filter (fun r => String.eqb (r_workflow_id r) w) tbl).
Proof.
  apply Forall_forall. intros r I. apply filter_In in I.
  apply String.eqb_eq, I.
Qed.

(** C6, as the code has it.  Every record [get_events_by_workflow(W, N)]
    returns has workflow id [W], and for [N >= 0] there are at most [N]
    records. *)
Theorem workflow_query_is_filtered_and_limited :
  forall io tbl w limit,
    Forall (fun e => workflow_id e = w)
           (get_events_by_workflow io tbl w limit) /\
    ((0 <= limit)%Z ->
     (Z.of_nat (List.length (get_events_by_workflow io tbl w limit))
      <= limit)%Z).
Proof.
  intros io tbl w limit.
  unfold get_events_by_workflow, select_by_workflow.
  destruct (negb io); [split; [constructor | simpl; lia]|].
  destruct (negb (fits_int64 limit)); [split; [constructor | simpl; lia]|].
  destruct (events_of_rows _) as [events|] eqn:E;
    [|split; [constructor | simpl; lia]].
  split.
  - eapply decoded_workflow; [|exact E].
    apply sql_limit_Forall, order_by_Forall, filter_workflow.
  - intros H. rewrite (events_of_rows_length _ _ E).
    apply sql_limit_length, H.
Qed.

(** C8.  A workflow id without rows gives the empty list, and so does a
    database that cannot be read, for both queries. *)
Theorem unknown_workflow_or_read_failure_gives_empty :
  forall tbl w limit,
    (forall io,
       (forall r, In r tbl -> r_workflow_id r <> w) ->
       get_events_by_workflow io tbl w limit = []) /\
    get_events_by_workflow false tbl w limit = [] /\
    get_recent_events false tbl limit = [].
Proof.
  intros tbl w limit. split; [|split; reflexivity].
  intros io H. unfold get_events_by_workflow, select_by_workflow.
  destruct (negb io); [reflexivity|].
  destruct (negb (fits_int64 limit)); [reflexivity|].
  assert (E : filter (fun r => String.eqb (r_workflow_id r) w) tbl = []).
  { induction tbl as [|r tbl IH]; [reflexivity|]. simpl.
    destruct (String.eqb (r_workflow_id r) w) eqn:Q.
    - apply String.eqb_eq in Q. exfalso. apply (H r); simpl; auto.
    - apply IH. intros r' I. apply H. simpl. auto. }
  rewrite E. unfold sql_limit. simpl.
  destruct (limit <? 0)%Z; [reflexivity|]. rewrite firstn_nil. reflexivity.
Qed.

Lemma Forall2_In_l {A B} (Q : A -> B -> Prop) l l' x :
  Forall2 Q l l' -> In x l -> exists y, In y l' /\ Q x y.
Proof.
  induction 1 as [|a b l l' H _ IH]; intros I; [contradiction|].
  destruct I as [I|I].
  - subst. exists b. simpl. auto.
  - destruct (IH I) as (y & Iy & Qy). exists y. simpl. auto.
Qed.

Lemma Forall2_In_r {A B} (Q : A -> B -> Prop) l l' y :
  Forall2 Q l l' -> In y l' -> exists x, In x l /\ Q x y.
Proof.
  induction 1 as [|a b l l' H _ IH]; intros I; [contradiction|].
  destruct I as [I|I].
  - subst. exists a. simpl. auto.
  - destruct (IH I) as (x & Ix & Qx). exists x. simpl. auto.
Qed.


End StorageFacts.

Import Scenario.

Lemma three_rows_stored : stored three_rows.
Proof.
  assert (W : forall e, valid (timestamp e) = true ->
                        Storage.wf_json (data e) ->
                        match metadata e with
                        | Some m => Storage.wf_json m
                        | None => True
                        end -> wf_event e)
    by (intros e V D M; repeat split; assumption).
  apply (stored_event [row_of_event event_a; row_of_event event_b] event_c);
    [| apply W; simpl; repeat constructor; auto | reflexivity].
  apply (stored_event [row_of_event event_a] event_b);
    [| apply W; simpl; repeat constructor; auto | reflexivity].
  apply (stored_event [] event_a);
    [constructor | apply W; simpl; repeat constructor; auto | reflexivity].
Defined.

Lemma event_d_wf : wf_event event_d.
Proof.
  split; [reflexivity|]. split; [|exact I].
  simpl. repeat split; repeat constructor; simpl; intuition discriminate.
Defined.

(** The two queries on the three rows. *)
Lemma queries_return_newest_first_witness :
  stored three_rows /\
  newest_first (get_events_by_workflow true three_rows "W1" 10) /\
  newest_first (get_recent_events true three_rows 10).
Proof.
  split; [exact three_rows_stored|].
  apply (queries_return_newest_first true three_rows "W1" 10
           three_rows_stored).
Defined.

(** A limit of 1 on the two rows of [W1]. *)
Lemma workflow_query_is_filtered_and_limited_witness :
  (0 <= 1)%Z /\
  Forall (fun e => workflow_id e = "W1")
         (get_events_by_workflow true three_rows "W1" 1) /\
  (Z.of_nat (List.length (get_events_by_workflow true three_rows "W1" 1))
   <= 1)%Z.
Proof.
  assert (H : (0 <= 1)%Z) by lia.
  destruct (workflow_query_is_filtered_and_limited true three_rows "W1" 1)
    as (F & L).
  split; [exact H|]. split; [exact F | exact (L H)].
Defined.

(** C6 fails as stated: with the limit -1 the query returns the two rows
    of [W1], which is more than -1 records. *)
Lemma negative_limit_returns_all :
  List.length (get_events_by_workflow true three_rows "W1" (-1)) = 2%nat /\
  ~ (Z.of_nat (List.length (get_events_by_workflow true three_rows "W1" (-1)))
     <= -1)%Z.
Proof.
  split; [reflexivity|]. vm_compute. intros H. apply H. reflexivity.
Qed.

(** No row of the three belongs to [W9]. *)
Lemma unknown_workflow_or_read_failure_gives_empty_witness :
  (forall r, In r three_rows -> r_workflow_id r <> "W9") /\
  get_events_by_workflow true three_rows "W9" 10 = [] /\
  get_events_by_workflow false three_rows "W1" 10 = [] /\
  get_recent_events false three_rows 10 = [].
Proof.
  assert (H : forall r, In r three_rows -> r_workflow_id r <> "W9").
  { intros r [E|[E|[E|[]]]]; subst r; discriminate. }
  split; [exact H|].
  destruct (unknown_workflow_or_read_failure_gives_empty three_rows "W9" 10)
    as (U & _).
  destruct (unknown_workflow_or_read_failure_gives_empty three_rows "W1" 10)
    as (_ & R1 & R2).
  split; [exact (U true H)|]. split; [exact R1 | exact R2].
Defined.


(* ================================================================== *)
(** * Facts about the event generator *)

Import Json DateTime Events Generator GeneratorSpec.

Lemma dict_get_del {V} (d : PyDict.dict V) k : PyDict.get (PyDict.del d k) k = None.
Proof.
  induction d as [|[k' v] d IH]; simpl; auto.
  destruct (String.eqb k k') eqn:E; simpl; auto. rewrite E. auto.
Qed.

Section GeneratorFacts.
Variable env : Env.

Lemma emit_build c s :
  emit env c s = bind (build env c) (_emit_event env) s.
Proof. destruct c; reflexivity. Qed.

Lemma create_event_spec et a st msg d err md s :
  exists ev s1,
    _create_event env et a st msg d err md s = (Ok ev, s1) /\
    same_frame s s1 /\
    PyDict.get (start_times s1) a = None /\
    agent_name ev = a /\
    workflow_id ev = self_workflow_id s /\
    event_id ev = uuid4 env (reads s) /\
    timestamp ev = datetime_now env (S (reads s)) /\
    duration ev =
      match PyDict.get (start_times s) a with
      | Some started => Some (time_time env (S (S (reads s))) - started)%Z
      | None => None
      end.
Proof.
  unfold _create_event, bind, read, get_start_times, put_start_times, ret.
  simpl.
  destruct (PyDict.get (start_times s) a) as [t0|] eqn:G; simpl.
  - do 2 eexists. split; [reflexivity|]. simpl.
    split; [unfold same_frame; simpl; auto 6|].
    split; [apply dict_get_del|]. auto 6.
  - do 2 eexists. split; [reflexivity|]. simpl.
    split; [unfold same_frame; simpl; auto 6|]. auto 6.
Qed.

Lemma build_spec c s :
  exists ev s1,
    build env c s = (Ok ev, s1) /\
    same_frame s s1 /\
    PyDict.get (start_times s1) (emission_agent c) = None /\
    agent_name ev = emission_agent c /\
    workflow_id ev = self_workflow_id s.
Proof.
  destruct c; simpl;
    try (match goal with
         | |- context [_create_event env ?et ?a ?st ?msg ?d ?err ?md s] =>
             destruct (create_event_spec et a st msg d err md s)
               as (ev & s1 & E & F & G & A & W & _);
             exists ev, s1; auto
         end).
  (* agent_started *)
  unfold bind, read, get_start_times, put_start_times. simpl.
  match goal with
  | |- context [_create_event env ?et ?a ?st ?msg ?d ?err ?md ?s0] =>
      destruct (create_event_spec et a st msg d err md s0)
        as (ev & s1 & E & F & G & A & W & _)
  end.
  exists ev, s1. rewrite E. auto.
Qed.

Lemma call_one ev h s :
  exists s0,
    try_except (call_handler h ev)
               (fun e => logger_error (LogHandlerFailed e)) s = (Ok tt, s0) /\
    calls s0 = calls s ++ [(handler_name h, ev)] /\
    db s0 = db s /\ start_times s0 = start_times s /\
    event_handlers s0 = event_handlers s.
Proof.
  unfold try_except, call_handler, logger_error.
  destruct (handler_raises h ev); eexists; (split; [reflexivity|]);
    simpl; auto.
Qed.

Lemma handlers_loop ev hs : forall s,
  exists s',
    for_each hs (fun h =>
      try_except (call_handler h ev)
                 (fun e => logger_error (LogHandlerFailed e))) s = (Ok tt, s') /\
    calls s' = calls s ++ map (fun h => (handler_name h, ev)) hs /\
    db s' = db s /\ start_times s' = start_times s /\
    event_handlers s' = event_handlers s.
Proof.
  induction hs as [|h hs IH]; intros s.
  - exists s. simpl. unfold ret. rewrite app_nil_r. auto.
  - destruct (call_one ev h s) as (s0 & T & C0 & D0 & T0 & H0).
    destruct (IH s0) as (s' & E & C & D & T' & H).
    exists s'. cbn [for_each]. unfold bind. rewrite T, E.
    rewrite C, C0, <- app_assoc. simpl. repeat split; congruence.
Qed.

Lemma emit_event_spec ev s :
  exists s2,
    _emit_event env ev s = (Ok tt, s2) /\
    start_times s2 = start_times s /\
    event_handlers s2 = event_handlers s /\
    match Storage.store_event (db_ok env (reads s)) (db s) ev with
    | Ok tbl' =>
        db s2 = tbl' /\
        calls s2 = calls s ++ map (fun h => (handler_name h, ev)) (event_handlers s)
    | Raise _ => db s2 = db s /\ calls s2 = calls s
    end.
Proof.
  unfold _emit_event, storage_store_event.
  unfold try_except at 1. unfold bind at 1. unfold bind at 1. unfold read at 1.
  cbn [reads db self_workflow_id event_handlers start_times calls log].
  destruct (Storage.store_event (db_ok env (reads s)) (db s) ev) as [tbl'|e] eqn:St.
  - unfold bind at 1. cbn [event_handlers].
    match goal with
    | |- context [for_each ?hs ?f ?s0] =>
        destruct (handlers_loop ev hs s0) as (s' & E & C & D & T & H)
    end.
    rewrite E. exists s'. cbn [calls db start_times event_handlers] in *. auto.
  - unfold logger_error. eexists. split; [reflexivity|]. simpl. auto.
Qed.


Lemma emit_consumes_start_time c s :
  fst (emit env c s) = Ok tt /\
  PyDict.get (start_times (snd (emit env c s))) (emission_agent c) = None.
Proof.
  rewrite emit_build. unfold bind.
  destruct (build_spec c s) as (ev & s1 & B & F & G & _).
  rewrite B.
  destruct (emit_event_spec ev s1) as (s2 & E & T & _).
  rewrite E. simpl. rewrite T. auto.
Qed.

Lemma emit_spec c s :
  fst (emit env c s) = Ok tt /\
  exists ev s1,
    build env c s = (Ok ev, s1) /\
    let s2 := snd (emit env c s) in
    match Storage.store_event (db_ok env (reads s1)) (db s) ev with
    | Ok tbl' =>
        db s2 = tbl' /\
        calls s2 =
          calls s ++ map (fun h => (handler_name h, ev)) (event_handlers s)
    | Raise _ => db s2 = db s /\ calls s2 = calls s
    end.
Proof.
  rewrite emit_build. unfold bind.
  destruct (build_spec c s) as (ev & s1 & B & (_ & H & D & C & _) & _).
  rewrite B.
  destruct (emit_event_spec ev s1) as (s2 & E & _ & _ & R).
  rewrite E. split; [reflexivity|].
  exists ev, s1. split; [reflexivity|]. simpl.
  rewrite <- D, <- C, <- H. exact R.
Qed.



(** C7.  When the store write of an emission succeeds, the event is in
    the database afterwards and every registered handler has been called
    with it, in registration order, whichever of the handlers raise: a
    handler that raises on every call stops neither the append nor the
    handlers after it. *)
Theorem raising_handler_is_isolated :
  forall c s ev s1 tbl',
    build env c s = (Ok ev, s1) ->
    Storage.store_event (db_ok env (reads s1)) (db s) ev = Ok tbl' ->
    let s2 := snd (emit env c s) in
    fst (emit env c s) = Ok tt /\
    db s2 = db s ++ [Storage.row_of_event ev] /\
    calls s2 =
      calls s ++ map (fun h => (handler_name h, ev)) (event_handlers s).
Proof.
  intros c s ev s1 tbl' B St s2.
  destruct (emit_spec c s) as (R & ev' & s1' & B' & P).
  rewrite B in B'. inversion B'; subst ev' s1'. clear B'.
  fold s2 in P. rewrite St in P. destruct P as (D & C).
  split; [exact R|]. split; [|exact C].
  rewrite D. unfold Storage.store_event in St.
  destruct (negb _); [discriminate|].
  destruct (Storage.has_event_id _ _); [discriminate|].
  inversion St. reflexivity.
Qed.

(** C1.  After [agent_started(A)] the event built by [agent_completed(A)]
    has no duration: the start time was consumed by the event of
    [agent_started] itself. *)
Theorem completed_event_has_no_duration :
  forall a d0 d1 s,
    let s1 := snd (agent_started env a d0 s) in
    exists ev s2,
      build env (AgentCompleted a d1) s1 = (Ok ev, s2) /\
      event_type ev = "agent_completed" /\
      agent_name ev = a /\
      duration ev = None.
Proof.
  intros a d0 d1 s s1.
  destruct (emit_consumes_start_time (AgentStarted a d0) s) as (_ & G).
  simpl in G. fold s1 in G.
  simpl build.
  match goal with
  | |- context [_create_event env ?et ?a ?st ?msg ?d ?err ?md ?s0] =>
      destruct (create_event_spec et a st msg d err md s0)
        as (ev & s2 & E & _ & _ & A & _ & _ & _ & Du)
  end.
  exists ev, s2. rewrite G in Du.
  split; [exact E|]. split; [|auto].
  unfold _create_event, bind, read, get_start_times, ret in E.
  simpl in E. rewrite G in E. simpl in E. inversion E. reflexivity.
Qed.

End GeneratorFacts.

Import Scenario.

(** With a handler that raises on every call registered before a
    well-behaved one, the event of [workflow_started] is stored and both
    handlers are called with it. *)
Lemma raising_handler_is_isolated_witness :
  let c := WorkflowStarted spec_file in
  let ev := sample_event in
  let s2 := snd (emit env_ok c started) in
  handler_raises bad_handler ev = true /\
  fst (emit env_ok c started) = Ok tt /\
  db s2 = db started ++ [Storage.row_of_event ev] /\
  calls s2 = calls started ++ [("bad", ev); ("good", ev)].
Proof.
  intros c ev s2. split; [reflexivity|].
  apply (raising_handler_is_isolated env_ok c started ev
           (snd (build env_ok c started))
           [Storage.row_of_event ev]);
    reflexivity.
Defined.


(** The scenario of C1 evaluated: the durations carried by the events of
    [agent_started("parser")] and [agent_completed("parser")], as the
    well-behaved handler sees them. *)
Lemma parser_scenario_durations :
  let s1 := snd (agent_started env_ok "parser" None started) in
  let s2 := snd (agent_completed env_ok "parser" six_items s1) in
  map (fun c => (event_type (snd c), duration (snd c)))
      (filter (fun c => String.eqb (fst c) "good") (calls s2))
  = [("agent_started", Some 600000%Z); ("agent_completed", None)].
Proof. vm_compute. reflexivity. Qed.

(* ================================================================== *)
(** * Facts about the event manager *)

Section ManagerFacts.
Import Manager.

Lemma dict_get_keys {V} (d : PyDict.dict V) k :
  In k (PyDict.keys d) <-> PyDict.get d k <> None.
Proof.
  induction d as [|[k' v] d IH]; simpl.
  - split; [tauto | congruence].
  - destruct (String.eqb k k') eqn:E.
    + apply String.eqb_eq in E. subst. split; [congruence | auto].
    + apply String.eqb_neq in E. rewrite <- IH. split.
      * intros [H|H]; [congruence | exact H].
      * auto.
Qed.

(** C9.  The active workflows are exactly the ids with a registered
    generator; on a new manager they are [[W]] after [create_generator(W)]
    and [[]] after the following [remove_generator(W)]; removing an id
    that is not registered changes nothing. *)
Theorem active_workflows_are_registered_ids :
  (forall m w, In w (get_active_workflows m) <-> get_generator m w <> None) /\
  (forall tbl w,
     let m1 := fst (create_generator (new_manager tbl) w) in
     get_active_workflows m1 = [w] /\
     get_active_workflows (remove_generator m1 w) = []) /\
  (forall m w, get_generator m w = None -> remove_generator m w = m).
Proof.
  split; [|split].
  - intros m w. apply dict_get_keys.
  - intros tbl w. simpl. split; [reflexivity|].
    unfold remove_generator, PyDict.mem, PyDict.del, get_active_workflows.
    simpl. rewrite String.eqb_refl. reflexivity.
  - intros m w H. unfold remove_generator, get_generator, PyDict.mem in *.
    rewrite H. reflexivity.
Qed.

End ManagerFacts.

(** The scenario of C9 with the id [W1], and the removal of an id that
    was never registered. *)
Lemma active_workflows_are_registered_ids_witness :
  let m0 := Manager.new_manager [] in
  let m1 := fst (Manager.create_generator m0 "W1") in
  Manager.get_generator m1 "W2" = None /\
  Manager.remove_generator m1 "W2" = m1 /\
  Manager.get_active_workflows m1 = ["W1"] /\
  Manager.get_active_workflows (Manager.remove_generator m1 "W1") = [].
Proof.
  intros m0 m1.
  destruct active_workflows_are_registered_ids as (_ & S & R).
  split; [reflexivity|].
  split; [apply R; reflexivity|].
  apply (S [] "W1").
Defined.

(* ================================================================== *)
(** * Facts about the broadcast transport *)

Section SSEFacts.
Import SSE SSESpec.

Lemma update_nth_Forall {A} (P : A -> Prop) f : forall l i,
  (forall x, P x -> P (f x)) -> Forall P l -> Forall P (update_nth i f l).
Proof.
  induction l as [|x l IH]; intros i Hf H; simpl.
  - destruct i; constructor.
  - inversion H; subst. destruct i; constructor; auto.
Qed.

Lemma finish_quiet c srv i : quiet srv -> quiet (finish c srv i).
Proof.
  intros H. unfold quiet, finish. simpl.
  apply update_nth_Forall; auto.
Qed.

Lemma send_all_frame q : forall s0,
  let r := fold_left (fun srv e => _send_to_subscribers e srv) q s0 in
  connections r = connections s0 /\ subscribers r = subscribers s0 /\
  event_queue r = event_queue s0 /\
  broadcast_log r = broadcast_log s0 ++ q.
Proof.
  induction q as [|e q IH]; intros s0; simpl.
  - rewrite app_nil_r. auto.
  - destruct (IH (_send_to_subscribers e s0)) as (C & S & Q & L).
    simpl in *. rewrite C, S, Q, L, <- app_assoc. auto.
Qed.

Lemma round_frame srv :
  connections (broadcast_round srv) = connections srv /\
  subscribers (broadcast_round srv) = subscribers srv /\
  event_queue (broadcast_round srv) = [] /\
  broadcast_log (broadcast_round srv) = broadcast_log srv ++ event_queue srv.
Proof.
  unfold broadcast_round.
  apply (send_all_frame (event_queue srv)
           (mkServer (subscribers srv) [] (connections srv)
                     (broadcast_log srv))).
Qed.

Lemma step_quiet srv o : quiet srv -> quiet (step srv o).
Proof.
  intros H. destruct o; simpl.
  - unfold quiet, open_stream. simpl. apply Forall_app. split; [exact H|].
    repeat constructor.
  - unfold resume. destruct (nth_error _ _) as [c|]; [|exact H].
    destruct (c_position c); try exact H;
      (destruct (set_mem _ _); [|apply finish_quiet; exact H]);
      unfold quiet; simpl; apply update_nth_Forall; auto;
      intros x Hx; simpl; apply Forall_app; split; auto;
      repeat constructor.
  - unfold close_stream. destruct (nth_error _ _) as [c|]; [|exact H].
    destruct (c_position c); try exact H; apply finish_quiet; exact H.
  - unfold broadcast_event. destruct (subscribers srv); exact H.
  - unfold quiet. destruct (round_frame srv) as (C & _). rewrite C. exact H.
Qed.

Lemma run_quiet ops : forall srv, quiet srv -> quiet (run ops srv).
Proof.
  induction ops as [|o ops IH]; intros srv H; simpl; auto.
  apply IH, step_quiet, H.
Qed.

Lemma quiet_received srv i id : quiet srv -> received_event srv i id = false.
Proof.
  unfold quiet, received_event. intros H.
  destruct (nth_error (connections srv) i) as [c|] eqn:E; [|reflexivity].
  apply nth_error_In in E.
  rewrite Forall_forall in H. specialize (H c E).
  induction (c_received c) as [|m l IH]; [reflexivity|].
  inversion H; subst. simpl. rewrite IH by assumption.
  destruct m; simpl in *; tauto.
Qed.

(** C3, as the code has it.  With two listeners connected, one broadcast
    puts one envelope carrying the event on the queue and the broadcast
    loop logs it; the same holds after listener 1 has disconnected, when
    the two client ids differ.  In no reachable state has a listener
    received a workflow event: the streams carry the connection message
    and heartbeats only. *)
Theorem broadcast_is_logged_not_delivered :
  forall t1 t2 now1 now2 now event,
    make_client_id t1 <> make_client_id t2 ->
    let e := mkEnvelope "workflow_event" event now in
    let both := open_stream t2 now2 (open_stream t1 now1 new_server) in
    let second := close_stream 0 both in
    event_queue (broadcast_event event now both) = [e] /\
    broadcast_log (broadcast_round (broadcast_event event now both)) = [e] /\
    subscribers second = [make_client_id t2] /\
    event_queue (broadcast_event event now second) = [e] /\
    broadcast_log (broadcast_round (broadcast_event event now second)) = [e] /\
    (forall ops i id, received_event (run ops new_server) i id = false).
Proof.
  intros t1 t2 now1 now2 now event N e both second.
  assert (Sb : exists x l, subscribers both = x :: l).
  { unfold both, open_stream, set_add. cbn -[String.eqb make_client_id].
    destruct (String.eqb _ _ || false); cbn; eauto. }
  assert (S2 : subscribers second = [make_client_id t2]).
  { unfold second, both, close_stream, open_stream.
    generalize dependent (make_client_id t1).
    generalize dependent (make_client_id t2).
    intros y x N. cbn -[String.eqb]. unfold set_add. cbn -[String.eqb].
    assert (E : String.eqb y x = false) by (apply String.eqb_neq; congruence).
    assert (E' : String.eqb x y = false) by (apply String.eqb_neq; congruence).
    rewrite E. cbn -[String.eqb]. rewrite String.eqb_refl.
    cbn -[String.eqb]. rewrite ?String.eqb_refl, ?E'. reflexivity. }
  destruct Sb as (x & l & Sb).
  assert (Q1 : event_queue (broadcast_event event now both) = [e]).
  { unfold broadcast_event. rewrite Sb. reflexivity. }
  assert (Q2 : event_queue (broadcast_event event now second) = [e]).
  { unfold broadcast_event. rewrite S2. reflexivity. }
  split; [exact Q1|]. split.
  { destruct (round_frame (broadcast_event event now both)) as (_ & _ & _ & L).
    rewrite L, Q1. unfold broadcast_event. rewrite Sb. reflexivity. }
  split; [exact S2|]. split; [exact Q2|]. split.
  { destruct (round_frame (broadcast_event event now second)) as (_ & _ & _ & L).
    rewrite L, Q2. unfold broadcast_event. rewrite S2. reflexivity. }
  intros ops i id. apply quiet_received, run_quiet. constructor.
Qed.

End SSEFacts.

Import Scenario.

(** Two listeners connect one second apart, the first disconnects, and
    an event is broadcast. *)
Lemma broadcast_is_logged_not_delivered_witness :
  let e := SSE.mkEnvelope "workflow_event" sample_event noon in
  let both :=
    SSE.open_stream 2000000 noon (SSE.open_stream 1000000 noon SSE.new_server)
  in
  let second := SSE.close_stream 0 both in
  SSE.make_client_id 1000000 <> SSE.make_client_id 2000000 /\
  SSE.subscribers second = ["client_2000"] /\
  SSE.broadcast_log
    (SSE.broadcast_round (SSE.broadcast_event sample_event noon second)) = [e]
  /\
  SSE.received_event
    (SSE.run [SSE.Open 1000000 noon; SSE.Open 2000000 noon; SSE.Close 0;
              SSE.Broadcast sample_event noon; SSE.Round; SSE.Resume 1 noon]
             SSE.new_server) 1 "id-0" = false.
Proof.
  intros e both second.
  assert (N : SSE.make_client_id 1000000 <> SSE.make_client_id 2000000)
    by (vm_compute; discriminate).
  destruct (broadcast_is_logged_not_delivered
              1000000 2000000 noon noon noon sample_event N)
    as (_ & _ & S & _ & L & R).
  split; [exact N|]. split; [exact S|]. split; [exact L|]. apply R.
Defined.

(** C3 fails as stated: two listeners are connected, an event is
    broadcast and the broadcast loop runs, and neither stream has
    received an envelope of the event. *)
Lemma broadcast_reaches_no_listener :
  let both :=
    SSE.run [SSE.Open 1000000 noon; SSE.Open 2000000 noon] SSE.new_server in
  let final :=
    SSE.run [SSE.Broadcast sample_event noon; SSE.Round;
             SSE.Resume 0 noon; SSE.Resume 1 noon] both in
  SSE.subscribers both = ["client_1000"; "client_2000"] /\
  SSE.broadcast_log final = [SSE.mkEnvelope "workflow_event" sample_event noon]
  /\
  ~ (SSE.received_event final 0 "id-0" = true /\
     SSE.received_event final 1 "id-0" = true).
Proof.
  split; [reflexivity|]. split; [reflexivity|].
  intros (H & _). vm_compute in H. discriminate H.
Qed.

Import Json JsonSpec DateTime Events Storage StorageSpec Calls.

(* ================================================================== *)
(** * More facts about the event storage *)

Section MoreStorageFacts.

Lemma ascii_compare_code x y :
  Ascii.compare x y = (N_of_ascii x ?= N_of_ascii y)%N.
Proof. reflexivity. Qed.

Lemma string_leb_trans a : forall b c,
  String.leb a b = true -> String.leb b c = true -> String.leb a c = true.
Proof.
  unfold String.leb.
  induction a as [|x a IH]; intros [|y b] [|z c] H1 H2; simpl in *;
    try reflexivity; try discriminate.
  rewrite ascii_compare_code in *.
  destruct (N_of_ascii x ?= N_of_ascii y)%N eqn:C1; try discriminate;
    destruct (N_of_ascii y ?= N_of_ascii z)%N eqn:C2; try discriminate.
  - apply N.compare_eq in C1. apply N.compare_eq in C2.
    rewrite C1, C2, N.compare_refl. eapply IH; eassumption.
  - apply N.compare_eq in C1. rewrite C1, C2. reflexivity.
  - apply N.compare_eq in C2. rewrite <- C2, C1. reflexivity.
  - change (N_of_ascii x < N_of_ascii y)%N in C1.
    change (N_of_ascii y < N_of_ascii z)%N in C2.
    assert (L : (N_of_ascii x < N_of_ascii z)%N) by lia.
    unfold N.lt in L. rewrite L. reflexivity.
Qed.

Lemma text_desc_trans r1 r2 r3 :
  text_desc r1 r2 -> text_desc r2 r3 -> text_desc r1 r3.
Proof. unfold text_desc. intros A B. eapply string_leb_trans; eassumption. Qed.

Lemma order_by_StronglySorted l :
  StronglySorted text_desc (order_by_timestamp_desc l).
Proof.
  apply Sorted_StronglySorted; [|apply order_by_Sorted].
  intros x y z. apply text_desc_trans.
Qed.

Lemma StronglySorted_app_inv {A} (R : A -> A -> Prop) l1 : forall l2 x y,
  StronglySorted R (l1 ++ l2) -> In x l1 -> In y l2 -> R x y.
Proof.
  induction l1 as [|a l1 IH]; intros l2 x y S Ix Iy; [contradiction|].
  simpl in S. inversion S as [|? ? S' F]; subst.
  destruct Ix as [E|Ix].
  - subst. rewrite Forall_forall in F. apply F, in_or_app. right. exact Iy.
  - eapply IH; eassumption.
Qed.

Lemma insert_desc_Permutation r l : Permutation (r :: l) (insert_desc r l).
Proof.
  induction l as [|x l IH]; simpl; [reflexivity|].
  destruct (String.leb _ _); [reflexivity|].
  rewrite perm_swap. constructor. exact IH.
Qed.

Lemma order_by_Permutation l : Permutation l (order_by_timestamp_desc l).
Proof.
  induction l as [|x l IH]; simpl; [constructor|].
  rewrite <- insert_desc_Permutation. constructor. exact IH.
Qed.

Lemma NoDup_map_filter {A B} (f : A -> B) p (l : list A) :
  NoDup (map f l) -> NoDup (map f (filter p l)).
Proof.
  induction l as [|x l IH]; simpl; intros N; [constructor|].
  inversion N as [|? ? Nx N']; subst.
  destruct (p x); [|auto]. simpl. constructor; [|auto].
  intros I. apply Nx. apply in_map_iff in I. destruct I as (y & E & I).
  apply filter_In in I. apply in_map_iff. exists y. tauto.
Qed.

Lemma NoDup_map_firstn {A B} (f : A -> B) n : forall (l : list A),
  NoDup (map f l) -> NoDup (map f (firstn n l)).
Proof.
  induction n as [|n IH]; intros [|x l] N; simpl; try constructor.
  - simpl in N. inversion N as [|? ? Nx N']; subst.
    intros I. apply Nx. apply in_map_iff in I. destruct I as (y & E & I).
    apply in_map_iff. exists y. split; [exact E|].
    rewrite <- (firstn_skipn n l). apply in_or_app. left. exact I.
  - simpl in N. inversion N; subst. apply IH. assumption.
Qed.

Lemma NoDup_map_limit limit (l : list Row) :
  NoDup (map r_event_id l) -> NoDup (map r_event_id (sql_limit limit l)).
Proof.
  unfold sql_limit. destruct (limit <? 0)%Z; [auto | apply NoDup_map_firstn].
Qed.

Lemma decoded_ids rows events :
  events_of_rows rows = Ok events ->
  map event_id events = map r_event_id rows.
Proof.
  intros H. apply events_of_rows_Forall2 in H.
  induction H as [|r e rows events E _ IH]; [reflexivity|].
  simpl. rewrite IH. apply event_of_row_fields in E. destruct E as (E & _).
  rewrite E. reflexivity.
Qed.

Lemma decoded_as_stored rows : forall events,
  Forall written rows -> events_of_rows rows = Ok events ->
  forall event,
    wf_event event -> In (row_of_event event) rows ->
    In (as_stored event) events.
Proof.
  intros events W H event We I.
  apply events_of_rows_Forall2 in H.
  destruct (Forall2_In_l _ _ _ _ H I) as (e & Ie & D).
  rewrite (event_of_row_written event We) in D. inversion D; subst e.
  exact Ie.
Qed.

(** The rows a query decodes, when the database can be read and the
    limit fits. *)
Lemma select_rows rows limit :
  Forall written rows ->
  exists events,
    events_of_rows (sql_limit limit (order_by_timestamp_desc rows))
    = Ok events.
Proof.
  intros W. apply events_of_rows_written.
  apply sql_limit_Forall, order_by_Forall, W.
Qed.

Lemma sql_limit_length_exact limit (l : list Row) :
  List.length (sql_limit limit l) = limited limit (List.length l).
Proof.
  unfold sql_limit, limited. destruct (limit <? 0)%Z; [reflexivity|].
  apply length_firstn.
Qed.

Lemma stored_rows_of tbl w : stored tbl -> Forall written (rows_of tbl w).
Proof. intros S. apply filter_Forall, stored_written, S. Qed.


Lemma newest_rows rows limit events :
  Forall written rows ->
  events_of_rows (sql_limit limit (order_by_timestamp_desc rows)) = Ok events ->
  forall e event,
    In e events -> wf_event event -> In (row_of_event event) rows ->
    ~ In (event_id event) (map event_id events) ->
    DateTime.leb (timestamp event) (timestamp e) = true.
Proof.
  intros W H e event Ie We Ir Nid.
  pose proof (decoded_ids _ _ H) as Ids.
  pose proof (events_of_rows_Forall2 _ _ H) as F.
  destruct (Forall2_In_r _ _ _ _ F Ie) as (re & Ire & De).
  set (sorted := order_by_timestamp_desc rows) in *.
  assert (Is : In (row_of_event event) sorted) by (apply order_by_In, Ir).
  assert (Ws : Forall written sorted) by (apply order_by_Forall, W).
  assert (Wre : written re).
  { rewrite Forall_forall in Ws. apply Ws. eapply sql_limit_incl, Ire. }
  assert (Out : ~ In (row_of_event event) (sql_limit limit sorted)).
  { intros I. apply Nid. rewrite Ids.
    change (event_id event) with (r_event_id (row_of_event event)).
    apply in_map, I. }
  unfold sql_limit in *. destruct (limit <? 0)%Z; [contradiction|].
  rewrite <- (firstn_skipn (Z.to_nat limit) sorted) in Is.
  apply in_app_or in Is. destruct Is as [Is|Is]; [contradiction|].
  assert (T : text_desc re (row_of_event event)).
  { apply (StronglySorted_app_inv text_desc
             (firstn (Z.to_nat limit) sorted) (skipn (Z.to_nat limit) sorted));
      try assumption.
    rewrite firstn_skipn. apply order_by_StronglySorted. }
  unfold text_desc in T.
  destruct (written_decodes re Wre) as (e' & D' & Ts & V).
  rewrite De in D'. inversion D'; subst e'.
  cbn [row_of_event r_timestamp] in T. rewrite Ts in T.
  rewrite isoformat_leb in T; [exact T | apply We | exact V].
Qed.

Lemma store_event_In io tbl event tbl' :
  store_event io tbl event = Ok tbl' ->
  In (row_of_event event) tbl'.
Proof.
  unfold store_event. intros Sv.
  destruct (negb io); [discriminate Sv|].
  destruct (has_event_id _ _); [discriminate Sv|].
  inversion Sv. apply in_or_app. right. simpl. auto.
Qed.

Lemma as_stored_same event : metadata event = None -> as_stored event = event.
Proof.
  intros M. destruct event. unfold as_stored, stored_metadata.
  cbn in *. subst. reflexivity.
Qed.

(** A stored event is found by both queries when the limit does not cut
    it off. *)
Lemma query_finds tbl event limit :
  stored tbl -> wf_event event -> In (row_of_event event) tbl ->
  fits_int64 limit = true ->
  (limit < 0 \/ Z.of_nat (List.length tbl) <= limit)%Z ->
  In (as_stored event)
     (get_events_by_workflow true tbl (workflow_id event) limit) /\
  In (as_stored event) (get_recent_events true tbl limit).
Proof.
  intros St W Hin F L.
  pose proof (stored_written tbl St) as Wr.
  unfold get_events_by_workflow, select_by_workflow,
         get_recent_events, select_recent.
  rewrite F. cbn [negb].
  fold (rows_of tbl (workflow_id event)).
  pose proof (stored_rows_of tbl (workflow_id event) St) as Wf.
  split.
  - destruct (select_rows _ limit Wf) as (events & E). rewrite E.
    eapply decoded_as_stored; [| exact E | exact W |].
    + apply sql_limit_Forall, order_by_Forall, Wf.
    + rewrite sql_limit_all.
      * apply order_by_In, filter_In. split; [exact Hin|].
        apply String.eqb_refl.
      * destruct L as [L|L]; [left; exact L | right].
        rewrite order_by_length. unfold rows_of.
        pose proof (filter_length_le
                      (fun r => String.eqb (r_workflow_id r)
                                           (workflow_id event)) tbl).
        lia.
  - destruct (select_rows _ limit Wr) as (events & E). rewrite E.
    eapply decoded_as_stored; [| exact E | exact W |].
    + apply sql_limit_Forall, order_by_Forall, Wr.
    + rewrite sql_limit_all.
      * apply order_by_In, Hin.
      * destruct L as [L|L]; [left; exact L | right].
        rewrite order_by_length. exact L.
Qed.

End MoreStorageFacts.

(** X1.  An event appended by [store_event] comes back from both queries
    with every field as it was stored, but for [metadata], which goes
    through its column: a falsy [metadata] comes back as [None].  The
    limit must not cut the event off. *)
Theorem stored_event_comes_back :
  forall tbl event tbl' limit,
    stored tbl -> wf_event event ->
    store_event true tbl event = Ok tbl' ->
    fits_int64 limit = true ->
    (limit < 0 \/ Z.of_nat (List.length tbl') <= limit)%Z ->
    In (as_stored event)
       (get_events_by_workflow true tbl' (workflow_id event) limit) /\
    In (as_stored event) (get_recent_events true tbl' limit) /\
    (metadata event = None -> as_stored event = event) /\
    (forall m, metadata event = Some m ->
               metadata (as_stored event) = if truthy m then Some m else None).
Proof.
  intros tbl event tbl' limit St W Sv F L.
  assert (St' : stored tbl') by (eapply stored_event; eassumption).
  destruct (query_finds tbl' event limit St' W
              (store_event_In _ _ _ _ Sv) F L) as (Q1 & Q2).
  split; [exact Q1|]. split; [exact Q2|]. split.
  - apply as_stored_same.
  - intros m M. unfold as_stored, stored_metadata. cbn. rewrite M.
    reflexivity.
Qed.

(** X2.  Event ids are unique in the store: [store_event] refuses an
    event whose id is already there and leaves the table alone, so no id
    appears twice in the table or in the result of a query. *)
Theorem event_ids_are_unique :
  forall io tbl w limit,
    stored tbl ->
    NoDup (map r_event_id tbl) /\
    (forall event,
       In (event_id event) (map r_event_id tbl) ->
       store_event true tbl event = Raise IntegrityError) /\
    NoDup (map event_id (get_events_by_workflow io tbl w limit)) /\
    NoDup (map event_id (get_recent_events io tbl limit)).
Proof.
  intros io tbl w limit St.
  pose proof (stored_unique tbl St) as U.
  split; [exact U|]. split.
  - intros event I. unfold store_event. cbn [negb].
    destruct (has_event_id tbl (event_id event)) eqn:H; [reflexivity|].
    apply has_event_id_In in H. contradiction.
  - unfold get_events_by_workflow, select_by_workflow,
           get_recent_events, select_recent.
    destruct (negb io); [split; constructor|].
    destruct (negb (fits_int64 limit)); [split; constructor|].
    split.
    + destruct (events_of_rows _) as [events|] eqn:E; [|constructor].
      rewrite (decoded_ids _ _ E). apply NoDup_map_limit.
      eapply Permutation_NoDup;
        [apply Permutation_map, order_by_Permutation|].
      apply NoDup_map_filter, U.
    + destruct (events_of_rows _) as [events|] eqn:E; [|constructor].
      rewrite (decoded_ids _ _ E). apply NoDup_map_limit.
      eapply Permutation_NoDup;
        [apply Permutation_map, order_by_Permutation|].
      exact U.
Qed.

(** X3.  The queries lose nothing: when the database can be read they
    return as many records as there are rows to choose from, cut at the
    limit when it is not negative; a limit that does not fit in 64 bits
    gives the empty list. *)
Theorem query_returns_all_up_to_limit :
  forall tbl w limit,
    stored tbl ->
    (fits_int64 limit = true ->
     List.length (get_events_by_workflow true tbl w limit)
     = limited limit (List.length (rows_of tbl w)) /\
     List.length (get_recent_events true tbl limit)
     = limited limit (List.length tbl)) /\
    (fits_int64 limit = false ->
     get_events_by_workflow true tbl w limit = [] /\
     get_recent_events true tbl limit = []).
Proof.
  intros tbl w limit St.
  unfold get_events_by_workflow, select_by_workflow,
         get_recent_events, select_recent. cbn [negb].
  split; intros F; rewrite F; cbn [negb]; [|split; reflexivity].
  fold (rows_of tbl w).
  destruct (select_rows _ limit (stored_rows_of tbl w St)) as (ev1 & E1).
  destruct (select_rows _ limit (stored_written tbl St)) as (ev2 & E2).
  rewrite E1, E2.
  rewrite (events_of_rows_length _ _ E1), (events_of_rows_length _ _ E2).
  rewrite !sql_limit_length_exact, !order_by_length. auto.
Qed.

(** X4.  What a limit cuts off is the oldest: every stored event that a
    query leaves out is no newer than any event the query returns. *)
Theorem query_keeps_the_newest :
  forall io tbl w limit event e,
    stored tbl -> wf_event event -> In (row_of_event event) tbl ->
    (In e (get_recent_events io tbl limit) ->
     ~ In (event_id event) (map event_id (get_recent_events io tbl limit)) ->
     DateTime.leb (timestamp event) (timestamp e) = true) /\
    (workflow_id event = w ->
     In e (get_events_by_workflow io tbl w limit) ->
     ~ In (event_id event)
          (map event_id (get_events_by_workflow io tbl w limit)) ->
     DateTime.leb (timestamp event) (timestamp e) = true).
Proof.
  intros io tbl w limit event e St W I.
  unfold get_events_by_workflow, select_by_workflow,
         get_recent_events, select_recent.
  destruct (negb io); [split; intros; contradiction|].
  destruct (negb (fits_int64 limit)); [split; intros; contradiction|].
  split.
  - destruct (events_of_rows _) as [events|] eqn:E; [|contradiction].
    intros Ie N.
    eapply (newest_rows tbl limit events); try eassumption.
    apply stored_written, St.
  - intros Ew. subst w.
    destruct (events_of_rows _) as [events|] eqn:E; [|contradiction].
    intros Ie N.
    eapply (newest_rows _ limit events); try eassumption.
    + apply filter_Forall, stored_written, St.
    + apply filter_In. split; [exact I | apply String.eqb_refl].
Qed.

Import Generator GeneratorSpec.

(* ================================================================== *)
(** * More facts about the event generator *)

Section MoreGeneratorFacts.
Variable env : Env.

Lemma dict_get_set {V} (d : PyDict.dict V) k v :
  PyDict.get (PyDict.set d k v) k = Some v.
Proof.
  induction d as [|[k' v'] d IH]; simpl.
  - rewrite String.eqb_refl. reflexivity.
  - destruct (String.eqb k k') eqn:E; simpl; rewrite E; auto.
Qed.

(** What [_create_event] returns, field by field. *)
Lemma create_event_full et a st msg d err md s :
  exists ev s1,
    _create_event env et a st msg d err md s = (Ok ev, s1) /\
    same_frame s s1 /\
    start_times s1 = PyDict.del (start_times s) a /\
    reads s1 = (match PyDict.get (start_times s) a with
                | Some _ => 3 | None => 2 end + reads s)%nat /\
    ev = mkEvent (uuid4 env (reads s)) (self_workflow_id s)
                 (datetime_now env (S (reads s))) et a st msg
                 (JDict (match d with Some d => d | None => [] end))
                 (match PyDict.get (start_times s) a with
                  | Some started =>
                      Some (time_time env (S (S (reads s))) - started)%Z
                  | None => None
                  end)
                 err md.
Proof.
  unfold _create_event, bind, read, get_start_times, put_start_times, ret.
  simpl.
  assert (D : PyDict.get (start_times s) a = None ->
              PyDict.del (start_times s) a = start_times s).
  { generalize (start_times s). intros t.
    induction t as [|[k v] t IH]; simpl; [reflexivity|].
    destruct (String.eqb a k); [discriminate|]. simpl.
    intros H. rewrite (IH H). reflexivity. }
  destruct (PyDict.get (start_times s) a) as [t0|] eqn:G; simpl.
  - do 2 eexists. split; [reflexivity|]. unfold same_frame. simpl. auto 8.
  - do 2 eexists. split; [reflexivity|]. unfold same_frame. simpl.
    rewrite D by reflexivity. auto 8.
Qed.

(** The event an emission builds. *)
Lemma build_full c s :
  exists ev s1,
    build env c s = (Ok ev, s1) /\
    same_frame s s1 /\
    emitted (self_workflow_id s) c ev /\
    (exists i, (reads s <= i)%nat /\ (i + 2 <= reads s1)%nat /\
               event_id ev = uuid4 env i /\
               timestamp ev = datetime_now env (S i)) /\
    (start_times s = [] ->
     start_times s1 = [] /\
     duration ev =
       match c with
       | AgentStarted _ _ =>
           Some (time_time env (3 + reads s) - time_time env (reads s))%Z
       | _ => None
       end).
Proof.
  destruct c; cbn [build];
    try (match goal with
         | |- context [_create_event env ?et ?a ?st ?msg ?d ?err ?md s] =>
             destruct (create_event_full et a st msg d err md s)
               as (ev & s1 & E & F & T & R & V);
             exists ev, s1; rewrite V;
             (split; [rewrite <- V; exact E|]);
             (split; [exact F|]);
             (split; [repeat split|]);
             (split;
              [exists (reads s); rewrite R;
               destruct (PyDict.get (start_times s) _); cbn; repeat split; lia
              | intros Z; rewrite T, Z; cbn; auto])
         end).
  (* agent_started *)
  unfold bind, read, get_start_times, put_start_times.
  cbn [self_workflow_id event_handlers start_times db reads calls log].
  match goal with
  | |- context [_create_event env ?et ?a ?st ?msg ?d ?err ?md ?s0] =>
      destruct (create_event_full et a st msg d err md s0)
        as (ev & s1 & E & F & T & R & V)
  end.
  cbn [self_workflow_id event_handlers start_times db reads calls log]
    in T, R, V.
  rewrite dict_get_set in R, V.
  exists ev, s1. rewrite E. split; [reflexivity|].
  split; [exact F|]. rewrite V.
  split; [repeat split|].
  split.
  - exists (S (reads s)). rewrite R. cbn. repeat split; lia.
  - intros Z. rewrite T, Z. cbn. rewrite String.eqb_refl. cbn. auto.
Qed.

Lemma call_one_full ev h s :
  exists s0,
    try_except (call_handler h ev)
               (fun e => logger_error (LogHandlerFailed e)) s = (Ok tt, s0) /\
    calls s0 = calls s ++ [(handler_name h, ev)] /\
    db s0 = db s /\ start_times s0 = start_times s /\
    event_handlers s0 = event_handlers s /\
    self_workflow_id s0 = self_workflow_id s /\ reads s0 = reads s.
Proof.
  unfold try_except, call_handler, logger_error.
  destruct (handler_raises h ev); eexists; (split; [reflexivity|]);
    simpl; auto 6.
Qed.

Lemma handlers_loop_full ev hs : forall s,
  exists s',
    for_each hs (fun h =>
      try_except (call_handler h ev)
                 (fun e => logger_error (LogHandlerFailed e))) s = (Ok tt, s') /\
    calls s' = calls s ++ map (fun h => (handler_name h, ev)) hs /\
    db s' = db s /\ start_times s' = start_times s /\
    event_handlers s' = event_handlers s /\
    self_workflow_id s' = self_workflow_id s /\ reads s' = reads s.
Proof.
  induction hs as [|h hs IH]; intros s.
  - exists s. simpl. unfold ret. rewrite app_nil_r. auto 8.
  - destruct (call_one_full ev h s) as (s0 & T & C0 & D0 & T0 & H0 & W0 & R0).
    destruct (IH s0) as (s' & E & C & D & T' & H & W & R).
    exists s'. cbn [for_each]. unfold bind. rewrite T, E.
    rewrite C, C0, <- app_assoc. simpl. repeat split; congruence.
Qed.

(** What [_emit_event] does to the state. *)
Lemma emit_event_full ev s :
  exists s2,
    _emit_event env ev s = (Ok tt, s2) /\
    start_times s2 = start_times s /\
    event_handlers s2 = event_handlers s /\
    self_workflow_id s2 = self_workflow_id s /\
    reads s2 = S (reads s) /\
    match Storage.store_event (db_ok env (reads s)) (db s) ev with
    | Ok tbl' =>
        tbl' = db s ++ [row_of_event ev] /\
        db s2 = tbl' /\
        calls s2
        = calls s ++ map (fun h => (handler_name h, ev)) (event_handlers s)
    | Raise _ => db s2 = db s /\ calls s2 = calls s
    end.
Proof.
  unfold _emit_event, storage_store_event.
  unfold try_except at 1. unfold bind at 1. unfold bind at 1. unfold read at 1.
  cbn [reads db self_workflow_id event_handlers start_times calls log].
  destruct (Storage.store_event (db_ok env (reads s)) (db s) ev)
    as [tbl'|e] eqn:St.
  - unfold bind at 1. cbn [event_handlers].
    match goal with
    | |- context [for_each ?hs ?f ?s0] =>
        destruct (handlers_loop_full ev hs s0)
          as (s' & E & C & D & T & H & W & R)
    end.
    rewrite E. exists s'.
    cbn [calls db start_times event_handlers self_workflow_id reads] in *.
    repeat split; try assumption.
    unfold Storage.store_event in St.
    destruct (negb _); [discriminate|].
    destruct (Storage.has_event_id _ _); [discriminate|].
    inversion St. reflexivity.
  - unfold logger_error. eexists. split; [reflexivity|]. simpl. auto 6.
Qed.

(** One public emission call, start to end. *)
Lemma emit_full c s :
  exists ev s1 s2,
    build env c s = (Ok ev, s1) /\
    emit env c s = (Ok tt, s2) /\
    same_frame s s1 /\
    start_times s2 = start_times s1 /\
    event_handlers s2 = event_handlers s /\
    self_workflow_id s2 = self_workflow_id s /\
    reads s2 = S (reads s1) /\
    match Storage.store_event (db_ok env (reads s1)) (db s) ev with
    | Ok tbl' =>
        db s2 = db s ++ [row_of_event ev] /\
        calls s2
        = calls s ++ map (fun h => (handler_name h, ev)) (event_handlers s)
    | Raise _ => db s2 = db s /\ calls s2 = calls s
    end.
Proof.
  destruct (build_full c s) as (ev & s1 & B & F & _).
  destruct (emit_event_full ev s1) as (s2 & E & T & H & W & R & P).
  exists ev, s1, s2. rewrite emit_build. unfold bind. rewrite B.
  destruct F as (Fw & Fh & Fd & Fc & Fl).
  rewrite Fd, Fc, Fh in P.
  split; [reflexivity|]. split; [rewrite E; reflexivity|].
  split; [unfold same_frame; auto|].
  split; [exact T|]. split; [congruence|]. split; [congruence|].
  split; [exact R|].
  destruct (Storage.store_event _ _ _); [|exact P].
  destruct P as (P1 & P2 & P3). split; congruence.
Qed.


Lemma emit_all_cons c cs s :
  emit_all env (c :: cs) s
  = match emit env c s with
    | (Ok _, s') => emit_all env cs s'
    | (Raise e, s') => (Raise e, s')
    end.
Proof. reflexivity. Qed.





Lemma emissions_durations cs : forall s,
  start_times s = [] ->
  exists s' rows new_calls,
    emit_all env cs s = (Ok tt, s') /\
    start_times s' = [] /\
    db s' = db s ++ rows /\
    calls s' = calls s ++ new_calls /\
    Forall (fun r => r_duration r <> None ->
                     r_event_type r = "agent_started") rows /\
    Forall (fun c =>
              match duration (snd c) with
              | None => True
              | Some d =>
                  event_type (snd c) = "agent_started" /\
                  exists i, d = (time_time env (3 + i) - time_time env i)%Z
              end) new_calls.
Proof.
  induction cs as [|c cs IH]; intros s Z.
  - exists s, [], []. cbn. rewrite !app_nil_r. repeat split; auto.
  - destruct (emit_full c s) as (ev & s1 & s2 & B & E & F & T & H & W & R & P).
    destruct (build_full c s)
      as (ev' & s1' & B' & _ & (Ty & _) & _ & Du).
    rewrite B in B'. inversion B'; subst ev' s1'. clear B'.
    destruct (Du Z) as (Z1 & D1).
    assert (Q : match duration ev with
                | None => True
                | Some d =>
                    event_type ev = "agent_started" /\
                    exists i, d = (time_time env (3 + i) - time_time env i)%Z
                end).
    { rewrite D1, Ty. destruct c; try exact I. split; [reflexivity|].
      eexists. reflexivity. }
    destruct (IH s2) as (s' & rows & new_calls & A & Z' & D & C & Fr & Fc);
      [congruence|].
    rewrite emit_all_cons, E.
    destruct (Storage.store_event _ _ _) as [tbl'|e].
    + destruct P as (Pd & Pc).
      exists s', (row_of_event ev :: rows),
             (map (fun h => (handler_name h, ev)) (event_handlers s)
              ++ new_calls).
      split; [exact A|]. split; [exact Z'|].
      split; [rewrite D, Pd, <- app_assoc; reflexivity|].
      split; [rewrite C, Pc, <- app_assoc; reflexivity|].
      split.
      * constructor; [|exact Fr]. cbn [row_of_event r_duration r_event_type].
        intros N. destruct (duration ev); [apply Q | congruence].
      * apply Forall_app. split; [|exact Fc].
        apply Forall_forall. intros x Ix. apply in_map_iff in Ix.
        destruct Ix as (h & Eh & _). subst x. exact Q.
    + destruct P as (Pd & Pc).
      exists s', rows, new_calls.
      split; [exact A|]. split; [exact Z'|].
      split; [congruence|]. split; [congruence|]. auto.
Qed.



(** X7.  On a generator whose start-time table is empty the table is
    empty again after any sequence of public emission calls, and the only
    events that carry a duration, in the store and in the calls of the
    handlers, are those of [agent_started]; the duration is the time
    between the two clock reads of that call. *)
Theorem only_agent_started_carries_a_duration :
  forall cs s,
    start_times s = [] ->
    let s' := snd (emit_all env cs s) in
    start_times s' = [] /\
    exists rows new_calls,
      db s' = db s ++ rows /\
      calls s' = calls s ++ new_calls /\
      Forall (fun r => r_duration r <> None ->
                       r_event_type r = "agent_started") rows /\
      Forall (fun c =>
                match duration (snd c) with
                | None => True
                | Some d =>
                    event_type (snd c) = "agent_started" /\
                    exists i, d = (time_time env (3 + i) - time_time env i)%Z
                end) new_calls.
Proof.
  intros cs s Z.
  destruct (emissions_durations cs s Z)
    as (s' & rows & new_calls & A & Z' & D & C & Fr & Fc).
  rewrite A. cbn. split; [exact Z'|]. exists rows, new_calls. auto.
Qed.

(** X8.  [add_handler] puts the handler last: it changes neither the
    store nor the calls made so far, and at the next emission whose
    store write succeeds the handlers registered before are called
    first, in their order, and the new one after them. *)
Theorem added_handler_is_called_last :
  forall h c s ev s1 tbl',
    let s0 := snd (add_handler h s) in
    build env c s0 = (Ok ev, s1) ->
    Storage.store_event (db_ok env (reads s1)) (db s) ev = Ok tbl' ->
    fst (add_handler h s) = Ok tt /\
    event_handlers s0 = event_handlers s ++ [h] /\
    db s0 = db s /\ calls s0 = calls s /\
    calls (snd (emit env c s0))
    = calls s ++ map (fun h' => (handler_name h', ev)) (event_handlers s)
      ++ [(handler_name h, ev)].
Proof.
  intros h c s ev s1 tbl' s0 B St. subst s0.
  destruct (emit_full c (snd (add_handler h s)))
    as (ev' & s1' & s2 & B' & E & F & T & H & W & R & P).
  rewrite B in B'. inversion B'; subst ev' s1'. clear B'.
  cbn [add_handler snd db] in P. rewrite St in P. destruct P as (_ & Pc).
  rewrite E. cbn [snd fst add_handler event_handlers db calls].
  repeat split; try reflexivity.
  rewrite Pc. cbn [calls event_handlers]. rewrite map_app. reflexivity.
Qed.

(** X9.  An event whose store write succeeded is found again: both
    queries on the database after the call return the event the call
    built, with the workflow id of the generator and the fields the call
    stamps, when the limit does not cut it off. *)
Theorem emitted_event_can_be_queried :
  forall c s ev s1 tbl' limit,
    stored (db s) ->
    build env c s = (Ok ev, s1) ->
    valid (timestamp ev) = true ->
    wf_json (JDict (emission_data c)) ->
    Storage.store_event (db_ok env (reads s1)) (db s) ev = Ok tbl' ->
    fits_int64 limit = true ->
    (limit < 0 \/ Z.of_nat (List.length tbl') <= limit)%Z ->
    let s2 := snd (emit env c s) in
    emitted (self_workflow_id s) c ev /\
    In ev (get_events_by_workflow true (db s2) (self_workflow_id s) limit) /\
    In ev (get_recent_events true (db s2) limit).
Proof.
  intros c s ev s1 tbl' limit Sd B V Wd St F L s2.
  destruct (emit_full c s)
    as (ev' & s1' & s2' & B' & E & _ & _ & _ & _ & _ & P).
  rewrite B in B'. inversion B'; subst ev' s1'. clear B'.
  destruct (build_full c s) as (ev' & s1' & B' & _ & Em & _).
  rewrite B in B'. inversion B'; subst ev' s1'. clear B'.
  unfold s2. rewrite E. cbn [snd].
  pose proof St as St0. rewrite St in P. destruct P as (Pd & _).
  assert (Io : db_ok env (reads s1) = true).
  { unfold Storage.store_event in St.
    destruct (db_ok env (reads s1)); [reflexivity | discriminate St]. }
  rewrite Io in St0.
  assert (T' : tbl' = db s ++ [row_of_event ev]).
  { unfold Storage.store_event in St0. cbn [negb] in St0.
    destruct (has_event_id _ _); [discriminate|]. inversion St0.
    reflexivity. }
  destruct Em as (Ty & Ag & Wi & Da & Er & Me).
  assert (We : wf_event ev).
  { split; [exact V|]. split; [rewrite Da; exact Wd|].
    rewrite Me. exact I. }
  assert (Sd' : stored tbl') by (eapply stored_event; eassumption).
  rewrite Pd, <- T'.
  destruct (query_finds tbl' ev limit Sd' We
              (store_event_In _ _ _ _ St0) F L) as (Q1 & Q2).
  rewrite (as_stored_same ev Me), Wi in Q1.
  rewrite (as_stored_same ev Me) in Q2.
  split; [repeat split; assumption|]. split; assumption.
Qed.

End MoreGeneratorFacts.

(* ================================================================== *)
(** * More facts about the event manager *)

Section MoreManagerFacts.
Import Manager Registry.

Lemma dict_get_set_same {V} (d : PyDict.dict V) k v :
  PyDict.get (PyDict.set d k v) k = Some v.
Proof.
  induction d as [|[k' v'] d IH]; simpl.
  - rewrite String.eqb_refl. reflexivity.
  - destruct (String.eqb k k') eqn:E; simpl; rewrite E; auto.
Qed.

Lemma dict_get_set_other {V} (d : PyDict.dict V) k k' v :
  k' <> k -> PyDict.get (PyDict.set d k v) k' = PyDict.get d k'.
Proof.
  intros N. induction d as [|[k0 v0] d IH]; simpl.
  - apply String.eqb_neq in N. rewrite N. reflexivity.
  - destruct (String.eqb k k0) eqn:E; simpl.
    + apply String.eqb_eq in E. subst k0.
      apply String.eqb_neq in N. rewrite N. reflexivity.
    + rewrite IH. reflexivity.
Qed.

Lemma dict_get_del_other {V} (d : PyDict.dict V) k k' :
  k' <> k -> PyDict.get (PyDict.del d k) k' = PyDict.get d k'.
Proof.
  intros N. induction d as [|[k0 v0] d IH]; simpl; [reflexivity|].
  destruct (String.eqb k k0) eqn:E; simpl.
  - apply String.eqb_eq in E. subst k0.
    apply String.eqb_neq in N. rewrite N. exact IH.
  - rewrite IH. reflexivity.
Qed.

Lemma dict_keys_set {V} (d : PyDict.dict V) k v :
  PyDict.keys (PyDict.set d k v)
  = if PyDict.mem d k then PyDict.keys d else PyDict.keys d ++ [k].
Proof.
  unfold PyDict.mem, PyDict.keys.
  induction d as [|[k0 v0] d IH]; simpl; [reflexivity|].
  destruct (String.eqb k k0) eqn:E; simpl; [reflexivity|].
  rewrite IH. destruct (PyDict.get d k); reflexivity.
Qed.

Lemma dict_keys_del {V} (d : PyDict.dict V) k :
  PyDict.keys (PyDict.del d k)
  = filter (fun k' => negb (String.eqb k k')) (PyDict.keys d).
Proof.
  unfold PyDict.keys, PyDict.del.
  induction d as [|[k0 v0] d IH]; simpl; [reflexivity|].
  destruct (String.eqb k k0); simpl; rewrite IH; reflexivity.
Qed.

Lemma filter_all {A} (f : A -> bool) l :
  (forall x, In x l -> f x = true) -> filter f l = l.
Proof.
  induction l as [|x l IH]; intros H; simpl; [reflexivity|].
  rewrite (H x) by (simpl; auto). rewrite IH; [reflexivity|].
  intros y I. apply H. simpl. auto.
Qed.

Lemma active_after_create m w :
  get_active_workflows (fst (create_generator m w))
  = if PyDict.mem (active_generators m) w
    then get_active_workflows m
    else get_active_workflows m ++ [w].
Proof. apply dict_keys_set. Qed.

Lemma active_after_remove m w :
  get_active_workflows (remove_generator m w)
  = filter (fun w' => negb (String.eqb w w')) (get_active_workflows m).
Proof.
  unfold remove_generator, get_active_workflows.
  destruct (PyDict.mem (active_generators m) w) eqn:M; cbn.
  - apply dict_keys_del.
  - symmetry. apply filter_all. intros w' I.
    destruct (String.eqb w w') eqn:E; [|reflexivity].
    apply String.eqb_eq in E. subst w'.
    apply dict_get_keys in I. unfold PyDict.mem in M.
    destruct (PyDict.get (active_generators m) w); [discriminate | congruence].
Qed.

Lemma NoDup_filter {A} (f : A -> bool) l : NoDup l -> NoDup (filter f l).
Proof.
  induction 1 as [|x l N _ IH]; simpl; [constructor|].
  destruct (f x); [|exact IH]. constructor; [|exact IH].
  intros I. apply filter_In in I. tauto.
Qed.

Lemma NoDup_snoc {A} (l : list A) x : NoDup l -> ~ In x l -> NoDup (l ++ [x]).
Proof.
  induction l as [|y l IH]; intros N I; simpl.
  - repeat constructor. tauto.
  - inversion N; subst. constructor.
    + intros J. apply in_app_or in J. simpl in *. intuition congruence.
    + apply IH; [assumption|]. simpl in I. tauto.
Qed.

Lemma apply_op_NoDup m o :
  NoDup (get_active_workflows m) ->
  NoDup (get_active_workflows (apply_op m o)).
Proof.
  intros N. destruct o as [w|w]; cbn [apply_op].
  - rewrite active_after_create.
    destruct (PyDict.mem (active_generators m) w) eqn:M; [exact N|].
    apply NoDup_snoc; [exact N|]. intros I.
    apply dict_get_keys in I. unfold PyDict.mem in M.
    destruct (PyDict.get (active_generators m) w); [discriminate | congruence].
  - rewrite active_after_remove. apply NoDup_filter, N.
Qed.

Lemma apply_op_storage m o : storage (apply_op m o) = storage m.
Proof.
  destruct o as [w|w]; cbn; [reflexivity|].
  unfold remove_generator. destruct (PyDict.mem _ _); reflexivity.
Qed.

(** X10.  The registry as a map.  After [create_generator(W)] the
    generator found under [W] is the new one, without handlers and
    without start times, whether or not [W] was registered before; after
    [remove_generator(W)] nothing is found under [W]; neither call
    changes what is found under another id. *)
Theorem registry_lookup_laws :
  forall m w w',
    snd (create_generator m w) = mkGenerator w [] [] /\
    get_generator (fst (create_generator m w)) w = Some (mkGenerator w [] []) /\
    get_generator (remove_generator m w) w = None /\
    (w' <> w ->
     get_generator (fst (create_generator m w)) w' = get_generator m w' /\
     get_generator (remove_generator m w) w' = get_generator m w').
Proof.
  intros m w w'. split; [reflexivity|]. split; [apply dict_get_set_same|].
  split.
  - unfold remove_generator, get_generator, PyDict.mem.
    destruct (PyDict.get (active_generators m) w) eqn:G; cbn.
    + apply dict_get_del.
    + exact G.
  - intros N. split; [apply dict_get_set_other, N|].
    unfold remove_generator, get_generator.
    destruct (PyDict.mem (active_generators m) w); cbn; [|reflexivity].
    apply dict_get_del_other, N.
Qed.

(** X11.  The list of active workflows.  Creating a generator for an id
    that is registered leaves the list as it is, for a new id it puts the
    id last; removing drops that id and nothing else.  Starting from a
    new manager the list never holds an id twice, and no call touches the
    stored events. *)
Theorem active_workflows_list_laws :
  forall tbl ops m w,
    get_active_workflows (fst (create_generator m w))
    = (if PyDict.mem (active_generators m) w
       then get_active_workflows m
       else get_active_workflows m ++ [w]) /\
    get_active_workflows (remove_generator m w)
    = filter (fun w' => negb (String.eqb w w')) (get_active_workflows m) /\
    NoDup (get_active_workflows (apply_ops ops (new_manager tbl))) /\
    storage (apply_ops ops (new_manager tbl)) = tbl.
Proof.
  intros tbl ops m w.
  split; [apply active_after_create|]. split; [apply active_after_remove|].
  unfold apply_ops.
  assert (G : forall m0,
            NoDup (get_active_workflows m0) ->
            NoDup (get_active_workflows (fold_left apply_op ops m0)) /\
            storage (fold_left apply_op ops m0) = storage m0).
  { induction ops as [|o ops IH]; intros m0 N; cbn [fold_left]; [auto|].
    destruct (IH (apply_op m0 o) (apply_op_NoDup m0 o N)) as (N' & S').
    split; [exact N'|]. rewrite S'. apply apply_op_storage. }
  apply (G (new_manager tbl)). constructor.
Qed.

End MoreManagerFacts.

(* ================================================================== *)
(** * More facts about the broadcast transport *)

Section MoreSSEFacts.
Import SSE SSESpec Streams.

Lemma set_mem_In x l : set_mem x l = true <-> In x l.
Proof.
  unfold set_mem. rewrite existsb_exists. split.
  - intros (y & I & E). apply String.eqb_eq in E. subst. exact I.
  - intros I. exists x. split; [exact I | apply String.eqb_refl].
Qed.

Lemma set_remove_In x y l : In y (set_remove x l) <-> In y l /\ y <> x.
Proof.
  unfold set_remove. rewrite filter_In. split; intros (I & E); split; auto.
  - intros Q. subst. rewrite String.eqb_refl in E. discriminate.
  - apply negb_true_iff, String.eqb_neq. congruence.
Qed.

Lemma set_add_In x y l : In y (set_add x l) <-> In y l \/ y = x.
Proof.
  unfold set_add. destruct (existsb (String.eqb x) l) eqn:E.
  - apply (set_mem_In x l) in E. split; [auto|]. intros [I|Q]; subst; auto.
  - rewrite in_app_iff. simpl. intuition congruence.
Qed.

Lemma set_add_NoDup x l : NoDup l -> NoDup (set_add x l).
Proof.
  intros N. unfold set_add. destruct (existsb (String.eqb x) l) eqn:E;
    [exact N|].
  assert (I : ~ In x l).
  { intros I. apply (set_mem_In x l) in I. unfold set_mem in I. congruence. }
  clear E. induction l as [|y l IH]; simpl.
  - repeat constructor. tauto.
  - inversion N; subst. constructor.
    + intros J. apply in_app_or in J. simpl in *. intuition congruence.
    + apply IH; [assumption|]. simpl in I. tauto.
Qed.

Lemma set_remove_NoDup x l : NoDup l -> NoDup (set_remove x l).
Proof.
  unfold set_remove. induction 1 as [|y l N _ IH]; simpl; [constructor|].
  destruct (negb _); [|exact IH]. constructor; [|exact IH].
  intros I. apply filter_In in I. tauto.
Qed.

Lemma nth_error_update_nth {A} (f : A -> A) l : forall i j,
  nth_error (update_nth i f l) j
  = if Nat.eqb i j then option_map f (nth_error l j) else nth_error l j.
Proof.
  induction l as [|x l IH]; intros i j.
  - destruct i, j; simpl; try reflexivity.
    destruct (Nat.eqb i j); reflexivity.
  - destruct i, j; simpl; try reflexivity. apply IH.
Qed.

Lemma In_update_nth {A} (f : A -> A) l : forall i x,
  In x l -> In x (update_nth i f l) \/ nth_error l i = Some x.
Proof.
  induction l as [|y l IH]; intros i x I; [contradiction|].
  destruct i; simpl.
  - destruct I as [E|I]; [right; congruence | left; auto].
  - destruct I as [E|I]; [left; auto|].
    destruct (IH i x I); auto.
Qed.

Lemma In_update_nth_at {A} (f : A -> A) l : forall i x,
  nth_error l i = Some x -> In (f x) (update_nth i f l).
Proof.
  induction l as [|y l IH]; intros i x H; destruct i; simpl in *;
    try discriminate.
  - inversion H. auto.
  - right. apply IH, H.
Qed.

(** ** The subscribers *)

Lemma finish_subscribed_ok c srv i :
  nth_error (connections srv) i = Some c ->
  subscribed_ok srv -> subscribed_ok (finish c srv i).
Proof.
  intros Hc (N & W). unfold subscribed_ok, finish.
  cbn [subscribers connections].
  assert (S : forall id,
            In id (if set_mem (c_client_id c) (subscribers srv)
                   then set_remove (c_client_id c) (subscribers srv)
                   else subscribers srv) ->
            In id (subscribers srv) /\ id <> c_client_id c).
  { intros id I. destruct (set_mem _ _) eqn:M.
    - apply set_remove_In, I.
    - split; [exact I|]. intros E. subst id.
      apply set_mem_In in I. congruence. }
  split.
  - destruct (set_mem _ _); [apply set_remove_NoDup, N | exact N].
  - intros id I. apply S in I. destruct I as (I & Ne).
    destruct (W id I) as (c' & Ic & Ec & Oc).
    exists c'. split; [|auto].
    destruct (In_update_nth
                (fun c => mkConnection (c_client_id c) Finished (c_received c))
                (connections srv) i c' Ic) as [J|J]; [exact J|].
    rewrite Hc in J. inversion J. subst c'. congruence.
Qed.

Lemma step_subscribed_ok srv o :
  subscribed_ok srv -> subscribed_ok (step srv o).
Proof.
  intros Inv. destruct o; cbn [step].
  - destruct Inv as (N & W). unfold subscribed_ok, open_stream.
    cbn [subscribers connections]. split; [apply set_add_NoDup, N|].
    intros id I. apply set_add_In in I. destruct I as [I|E].
    + destruct (W id I) as (c & Ic & Ec & Oc). exists c.
      split; [apply in_or_app; auto | auto].
    + subst id. eexists. split; [apply in_or_app; right; left; reflexivity|].
      split; reflexivity.
  - unfold resume. destruct (nth_error (connections srv) i) as [c|] eqn:Hc;
      [|exact Inv].
    assert (R : is_open c = true ->
                subscribed_ok
                  (if set_mem (c_client_id c) (subscribers srv)
                   then mkServer (subscribers srv) (event_queue srv)
                          (update_nth i
                             (fun c => mkConnection (c_client_id c) AtHeartbeat
                                         (c_received c ++ [HeartbeatMsg now]))
                             (connections srv))
                          (broadcast_log srv)
                   else finish c srv i)).
    { intros _. destruct (set_mem _ _); [|apply finish_subscribed_ok; auto].
      destruct Inv as (N & W). split; [exact N|].
      cbn [subscribers connections]. intros id I.
      destruct (W id I) as (c' & Ic & Ec & Oc).
      destruct (In_update_nth
                  (fun c => mkConnection (c_client_id c) AtHeartbeat
                              (c_received c ++ [HeartbeatMsg now]))
                  (connections srv) i c' Ic) as [J|J].
      - exists c'. auto.
      - eexists. split; [eapply In_update_nth_at, J|]. cbn. auto. }
    destruct (c_position c) eqn:P; [| |exact Inv];
      apply R; unfold is_open; rewrite P; reflexivity.
  - unfold close_stream.
    destruct (nth_error (connections srv) i) as [c|] eqn:Hc; [|exact Inv].
    destruct (c_position c); try exact Inv;
      apply finish_subscribed_ok; auto.
  - unfold broadcast_event. destruct (subscribers srv) eqn:S; [exact Inv|].
    destruct Inv as (N & W). split; cbn [subscribers connections];
      rewrite <- S; assumption.
  - destruct (round_frame srv) as (C & S & _).
    destruct Inv as (N & W). unfold subscribed_ok. rewrite C, S. auto.
Qed.

Lemma run_subscribed_ok ops : forall srv,
  subscribed_ok srv -> subscribed_ok (run ops srv).
Proof.
  induction ops as [|o ops IH]; intros srv H; simpl; auto.
  apply IH, step_subscribed_ok, H.
Qed.

(** ** The streams *)

Lemma step_well_formed srv o :
  Forall well_formed_stream (connections srv) ->
  Forall well_formed_stream (connections (step srv o)).
Proof.
  intros H.
  assert (Fin : forall c i,
            Forall well_formed_stream (connections (finish c srv i))).
  { intros c i. unfold finish. cbn [connections].
    apply update_nth_Forall; [|exact H]. intros x Hx. exact Hx. }
  assert (Beat : forall i now,
            Forall well_formed_stream
              (update_nth i
                 (fun c => mkConnection (c_client_id c) AtHeartbeat
                             (c_received c ++ [HeartbeatMsg now]))
                 (connections srv))).
  { intros i now. apply update_nth_Forall; [|exact H].
    intros x (ts & beats & E & B). exists ts, (beats ++ [HeartbeatMsg now]).
    cbn [c_received c_client_id]. rewrite E. split; [reflexivity|].
    rewrite forallb_app, B. reflexivity. }
  destruct o; cbn [step].
  - unfold open_stream. cbn [connections]. apply Forall_app.
    split; [exact H|]. repeat constructor.
    exists now, []. split; reflexivity.
  - unfold resume. destruct (nth_error _ _) as [c|]; [|exact H].
    destruct (c_position c); try exact H;
      (destruct (set_mem _ _); [apply Beat | apply Fin]).
  - unfold close_stream. destruct (nth_error _ _) as [c|]; [|exact H].
    destruct (c_position c); try exact H; apply Fin.
  - unfold broadcast_event. destruct (subscribers srv); exact H.
  - destruct (round_frame srv) as (C & _). rewrite C. exact H.
Qed.

Lemma step_finished srv o i c :
  nth_error (connections srv) i = Some c -> c_position c = Finished ->
  nth_error (connections (step srv o)) i = Some c.
Proof.
  intros Hc Hf.
  assert (Other : forall j (f : connection -> connection) cj,
            nth_error (connections srv) j = Some cj ->
            c_position cj <> Finished ->
            nth_error (update_nth j f (connections srv)) i = Some c).
  { intros j f cj Hj Nf. rewrite nth_error_update_nth.
    destruct (Nat.eqb j i) eqn:E; [|exact Hc].
    apply Nat.eqb_eq in E. subst j. congruence. }
  destruct o; cbn [step].
  - unfold open_stream. cbn [connections].
    rewrite nth_error_app1; [exact Hc|].
    apply nth_error_Some. congruence.
  - unfold resume. destruct (nth_error (connections srv) i0) as [cj|] eqn:Hj;
      [|exact Hc].
    destruct (c_position cj) eqn:P; try exact Hc;
      (destruct (set_mem _ _); unfold finish; cbn [connections];
       eapply Other; [exact Hj | congruence | exact Hj | congruence]).
  - unfold close_stream.
    destruct (nth_error (connections srv) i0) as [cj|] eqn:Hj; [|exact Hc].
    destruct (c_position cj) eqn:P; try exact Hc;
      (unfold finish; cbn [connections];
       eapply Other; [exact Hj | congruence]).
  - unfold broadcast_event. destruct (subscribers srv); exact Hc.
  - destruct (round_frame srv) as (C & _). rewrite C. exact Hc.
Qed.

(** ** Broadcasting *)

Lemma broadcast_all_queued events : forall srv,
  subscribers srv <> [] ->
  broadcast_all events srv
  = mkServer (subscribers srv)
             (event_queue srv ++ map envelope_of events)
             (connections srv) (broadcast_log srv).
Proof.
  unfold broadcast_all.
  induction events as [|[now event] events IH]; intros srv N;
    cbn [fold_left map].
  - rewrite app_nil_r. destruct srv; reflexivity.
  - unfold broadcast_event at 2. cbn [fst snd].
    destruct (subscribers srv) as [|x l] eqn:S; [congruence|].
    rewrite IH by (cbn; congruence).
    cbn [subscribers event_queue connections broadcast_log].
    rewrite <- app_assoc. reflexivity.
Qed.

Lemma broadcast_all_dropped events : forall srv,
  subscribers srv = [] -> broadcast_all events srv = srv.
Proof.
  unfold broadcast_all.
  induction events as [|[now event] events IH]; intros srv N;
    cbn [fold_left]; [reflexivity|].
  unfold broadcast_event at 2. rewrite N. apply IH, N.
Qed.


(** X12.  The client id is the clock in milliseconds, so two listeners
    that connect within the same millisecond share one id: the set of
    subscribers holds it once, the disconnection of one listener takes
    it out, after which a broadcast is dropped and the stream of the
    other listener ends at its next turn without a heartbeat. *)
Theorem same_millisecond_listeners_share_an_id :
  forall t1 t2 now1 now2 now event,
    (t1 / 1000 = t2 / 1000)%Z ->
    let id := make_client_id t1 in
    let both := open_stream t2 now2 (open_stream t1 now1 new_server) in
    let after := close_stream 0 both in
    subscribers both = [id] /\
    subscribers after = [] /\
    broadcast_event event now after = after /\
    nth_error (connections (resume 1 now after)) 1
    = Some (mkConnection id Finished [ConnectionMsg id now2]).
Proof.
  intros t1 t2 now1 now2 now event H id both after.
  assert (E : make_client_id t2 = make_client_id t1).
  { unfold make_client_id. rewrite H. reflexivity. }
  subst both after id. unfold open_stream, close_stream. rewrite E.
  generalize (make_client_id t1). clear. intros id.
  do 6 (cbn -[String.eqb];
        unfold set_add, set_mem, set_remove, finish, resume,
               broadcast_event;
        rewrite ?String.eqb_refl).
  cbn. repeat split.
Qed.

(** X13.  Broadcasts are queued first in, first out: with a subscriber
    connected, a round of the broadcast loop logs what was queued before
    and then the broadcast events in the order of the calls, and leaves
    the queue empty and the streams as they were.  Without a subscriber
    every broadcast is dropped and the server is unchanged. *)
Theorem broadcasts_are_logged_in_order :
  forall events srv,
    (subscribers srv <> [] ->
     let after := broadcast_round (broadcast_all events srv) in
     broadcast_log after
     = broadcast_log srv ++ event_queue srv ++ map envelope_of events /\
     event_queue after = [] /\
     connections after = connections srv /\
     subscribers after = subscribers srv) /\
    (subscribers srv = [] -> broadcast_all events srv = srv).
Proof.
  intros events srv. split; [|apply broadcast_all_dropped].
  intros N after. subst after. rewrite broadcast_all_queued by exact N.
  match goal with
  | |- context [broadcast_round ?s] =>
      destruct (round_frame s) as (C & S & Q & L)
  end.
  rewrite C, S, Q, L. cbn. auto.
Qed.

(** X14.  Every stream follows the protocol: it starts with the
    connection message that carries its own client id, and everything
    after it is a heartbeat.  A stream that has finished never changes
    again. *)
Theorem streams_follow_the_protocol :
  forall ops,
    Forall well_formed_stream (connections (run ops new_server)) /\
    (forall srv i c,
       nth_error (connections srv) i = Some c ->
       c_position c = Finished ->
       nth_error (connections (run ops srv)) i = Some c).
Proof.
  intros ops. split.
  - assert (G : forall srv,
              Forall well_formed_stream (connections srv) ->
              Forall well_formed_stream (connections (run ops srv))).
    { induction ops as [|o ops IH]; intros srv H; simpl; auto.
      apply IH, step_well_formed, H. }
    apply G. constructor.
  - induction ops as [|o ops IH]; intros srv i c Hc Hf; simpl; auto.
    apply IH; [|exact Hf]. apply step_finished; assumption.
Qed.

(** X15.  Whatever listeners and producers do, the set of subscribers
    holds no id twice and every id in it belongs to a stream that is
    still open, so there are never more subscribers than open
    streams. *)
Theorem every_subscriber_has_an_open_stream :
  forall ops,
    let srv := run ops new_server in
    NoDup (subscribers srv) /\
    (forall id, In id (subscribers srv) ->
       exists c, In c (connections srv) /\ c_client_id c = id /\
                 is_open c = true) /\
    (List.length (subscribers srv)
     <= List.length (filter is_open (connections srv)))%nat.
Proof.
  intros ops srv.
  assert (Inv : subscribed_ok srv).
  { apply run_subscribed_ok. split; [constructor | intros id []]. }
  destruct Inv as (N & W). split; [exact N|]. split; [exact W|].
  rewrite <- (length_map c_client_id (filter is_open (connections srv))).
  apply NoDup_incl_length; [exact N|].
  intros id I. destruct (W id I) as (c & Ic & Ec & Oc).
  apply in_map_iff. exists c. split; [exact Ec|].
  apply filter_In. auto.
Qed.

End MoreSSEFacts.

(* ================================================================== *)
(** * Facts about the wire form of an event *)

Section WireFacts.
Import Wire.






End WireFacts.

(* ================================================================== *)
(** * Examples of the additional facts *)

Section MoreExamples.
Import Json JsonSpec DateTime Events Storage StorageSpec Calls.
Import Generator GeneratorSpec Manager Registry SSE SSESpec Streams Wire.
Import Scenario MoreScenario.


Lemma event_b_wf : wf_event event_b.
Proof.
  split; [reflexivity|]. split; [|exact I].
  simpl. repeat split; repeat constructor; simpl; intuition discriminate.
Defined.

(** The nested event, appended to the three rows, comes back from both
    queries. *)
Lemma stored_event_comes_back_witness :
  In (as_stored event_d)
     (Storage.get_events_by_workflow true (three_rows ++ [row_of_event event_d])
                             "W1" 100) /\
  In (as_stored event_d)
     (Storage.get_recent_events true (three_rows ++ [row_of_event event_d]) 100).
Proof.
  destruct (stored_event_comes_back three_rows event_d
              (three_rows ++ [row_of_event event_d]) 100
              three_rows_stored event_d_wf eq_refl eq_refl) as (A & B & _).
  - right. simpl. lia.
  - exact (conj A B).
Defined.

(** The three rows have three ids, and the first event is refused a
    second time. *)
Lemma event_ids_are_unique_witness :
  NoDup (map r_event_id three_rows) /\
  store_event true three_rows event_a = Raise IntegrityError.
Proof.
  destruct (event_ids_are_unique true three_rows "W1" 10 three_rows_stored)
    as (A & B & _).
  split; [exact A|]. apply B. simpl. auto.
Defined.

(** A limit of 1 on the two rows of [W1] gives one record, a limit of 10
    on the three rows gives three. *)
Lemma query_returns_all_up_to_limit_witness :
  List.length (Storage.get_events_by_workflow true three_rows "W1" 1) = 1%nat /\
  List.length (Storage.get_recent_events true three_rows 10) = 3%nat.
Proof.
  destruct (query_returns_all_up_to_limit three_rows "W1" 1 three_rows_stored)
    as (A & _).
  destruct (query_returns_all_up_to_limit three_rows "W1" 10 three_rows_stored)
    as (B & _).
  split; [apply (A eq_refl) | apply (B eq_refl)].
Defined.

(** With a limit of 1 the query on [W1] leaves out the older event. *)
Lemma query_keeps_the_newest_witness :
  DateTime.leb (timestamp event_b) (timestamp event_a) = true.
Proof.
  destruct (query_keeps_the_newest true three_rows "W1" 1 event_b event_a
              three_rows_stored event_b_wf) as (_ & A).
  - simpl. auto.
  - apply A; [reflexivity | left; reflexivity |].
    intros [E | []]. discriminate E.
Defined.




Lemma only_agent_started_carries_a_duration_witness :
  start_times (snd (emit_all env_ok parser_run started)) = [].
Proof.
  apply (only_agent_started_carries_a_duration env_ok parser_run started
           eq_refl).
Defined.

(** A third handler added behind the two of the scenario. *)
Lemma added_handler_is_called_last_witness :
  let late := mkHandler "late" (fun _ => false) in
  calls (snd (emit env_ok (WorkflowStarted spec_file)
                   (snd (add_handler late started))))
  = [("bad", sample_event); ("good", sample_event); ("late", sample_event)].
Proof.
  intros late.
  destruct (added_handler_is_called_last env_ok late
              (WorkflowStarted spec_file) started sample_event
              _ _ eq_refl eq_refl) as (_ & _ & _ & _ & C).
  exact C.
Defined.

Lemma emitted_event_can_be_queried_witness :
  In sample_event
     (Storage.get_recent_events true
        (db (snd (emit env_ok (WorkflowStarted spec_file) started))) 10).
Proof.
  edestruct (emitted_event_can_be_queried env_ok (WorkflowStarted spec_file)
               started sample_event) with (limit := 10%Z) as (_ & _ & C).
  - exact stored_empty.
  - reflexivity.
  - reflexivity.
  - apply wf_json_dict. split; simpl; repeat constructor; auto.
  - reflexivity.
  - reflexivity.
  - right. simpl. lia.
  - exact C.
Defined.


Lemma registry_lookup_laws_witness :
  let m := fst (create_generator (new_manager []) "W1") in
  get_generator (fst (create_generator m "W2")) "W1" = get_generator m "W1" /\
  get_generator (remove_generator m "W2") "W1" = get_generator m "W1".
Proof.
  intros m.
  destruct (registry_lookup_laws m "W2" "W1") as (_ & _ & _ & A).
  apply A. discriminate.
Defined.


Lemma same_millisecond_listeners_share_an_id_witness :
  subscribers (open_stream 1709812800123999 noon
                 (open_stream 1709812800123456 noon new_server))
  = [make_client_id 1709812800123456].
Proof.
  destruct (same_millisecond_listeners_share_an_id
              1709812800123456 1709812800123999 noon noon noon event_a
              eq_refl) as (A & _).
  exact A.
Defined.

Lemma broadcasts_are_logged_in_order_witness :
  let srv := open_stream 1709812800123456 noon new_server in
  broadcast_log
    (broadcast_round (broadcast_all [(noon, event_a); (noon, event_b)] srv))
  = [envelope_of (noon, event_a); envelope_of (noon, event_b)].
Proof.
  intros srv.
  destruct (broadcasts_are_logged_in_order
              [(noon, event_a); (noon, event_b)] srv) as (A & _).
  destruct A as (L & _); [discriminate|]. exact L.
Defined.

Lemma streams_follow_the_protocol_witness :
  let srv := run two_listeners new_server in
  nth_error (connections (run two_listeners srv)) 0
  = nth_error (connections srv) 0.
Proof.
  intros srv.
  destruct (streams_follow_the_protocol two_listeners) as (_ & A).
  rewrite (A srv 0%nat
             (mkConnection (make_client_id 1709812800123456) Finished
                [ConnectionMsg (make_client_id 1709812800123456) noon;
                 HeartbeatMsg noon])); reflexivity.
Defined.

Lemma every_subscriber_has_an_open_stream_witness :
  let srv := run two_listeners new_server in
  exists c, In c (connections srv) /\
            c_client_id c = make_client_id 1709812801000001 /\
            is_open c = true.
Proof.
  intros srv.
  destruct (every_subscriber_has_an_open_stream two_listeners)
    as (_ & A & _).
  apply A. left. reflexivity.
Defined.



End MoreExamples.
